(** * Particle filter of [my_localizer/scripts/pf.py]

    A shallow embedding of the estimation loop of the [ParticleFilter] node:
    the sensor update, normalisation, pose estimate, motion update,
    resampling, the update gate of [scan_received] and the transform
    broadcast.

    Modelling conventions.
    - Python floats are idealised as real numbers ([R]); rounding, overflow
      and signed zeros are outside this model.  The one special float value
      the code tests for, the NaN that [get_closest_obstacle_distance]
      returns for a point outside the map, is [None].  Where the rounding
      decides what the code returns, module [Binary64] has the method on
      IEEE 754 binary64 numbers.
    - A raised Python exception is [Raise]; it aborts the method.
    - [random_sample()] reads the next value of a stream of draws.
    - The value-level model keeps a cloud as a list of particle values, one
      per list position (no two positions alias one object); module
      [Refs] models the object store for resampling, which is where
      object identity matters. *)

From Stdlib Require Import Reals Lra Lia List Bool Arith.
From Stdlib Require PrimFloat.
Import ListNotations.
Import (notations) PrimFloat.

Open Scope R_scope.

(** ** Exceptions *)

Inductive exn : Type :=
| IndexError
| ZeroDivisionError
| ValueError
| AttributeError
| TfException.

Inductive result (A : Type) : Type :=
| Ok (a : A)
| Raise (e : exn).

Arguments Ok {A} a.
Arguments Raise {A} e.

Definition bind {A B : Type} (m : result A) (f : A -> result B) : result B :=
  match m with
  | Ok a => f a
  | Raise e => Raise e
  end.

Notation "'let*' x ':=' m 'in' k" := (bind m (fun x => k))
  (at level 10, x pattern, m at level 100, k at level 200).

(** [xs[i]] on a Python sequence, for a non-negative index. *)
Definition index {A : Type} (xs : list A) (i : nat) : result A :=
  match nth_error xs i with
  | Some a => Ok a
  | None => Raise IndexError
  end.

(** Sequential loop whose body may raise. *)
Fixpoint mapM {A B : Type} (f : A -> result B) (xs : list A) : result (list B) :=
  match xs with
  | [] => Ok []
  | a :: rest =>
      let* b := f a in
      let* bs := mapM f rest in
      Ok (b :: bs)
  end.

(** ** Particles *)

Record Particle : Type := mkParticle { x : R; y : R; theta : R; w : R }.

Definition set_w (p : Particle) (v : R) : Particle :=
  mkParticle (x p) (y p) (theta p) v.

(** Python's [sum]: starts from [0] and adds from the left. *)
Definition sum (l : list R) : R := fold_left Rplus l 0.

(** [sum(particle.w for particle in self.particle_cloud)] *)
Definition weights_sum (cloud : list Particle) : R := sum (map w cloud).

(** [range(0, 360, 10)] *)
Definition range_0_360_10 : list nat := map (fun k => (k * 10)%nat) (seq 0 36).

(** [np.radians] *)
Definition radians (deg : nat) : R := INR deg * PI / 180.

(** ** External collaborators

    What the node uses and this file does not define: the occupancy field,
    the pose helpers of [helper_functions], the message types and numpy's
    global random generator. *)

Class World : Type := {
  Pose : Type;
  Translation : Type;
  Rotation : Type;
  (** [Particle.as_pose]: builds the [geometry_msgs/Pose] message *)
  as_pose : Particle -> Pose;
  convert_pose_inverse_transform : Pose -> Translation * Rotation;
  convert_translation_rotation_to_pose : Translation -> Rotation -> Pose;
  (** [OccupancyField.get_closest_obstacle_distance]; [None] is the NaN it
      returns for a point outside the map *)
  get_closest_obstacle_distance : R -> R -> option R;
  (** the successive values of [numpy.random.random_sample()] *)
  random_stream : nat -> R
}.

(** [np.arctan2(b, a)] on the reals, quadrant by quadrant ([0] at the
    origin, as numpy gives for positive zeros). *)
Definition arctan2 (b a : R) : R :=
  if Rlt_dec 0 a then atan (b / a)
  else if Rlt_dec a 0 then
         (if Rle_dec 0 b then atan (b / a) + PI else atan (b / a) - PI)
  else if Rlt_dec 0 b then PI / 2
  else if Rlt_dec b 0 then - (PI / 2)
  else 0.

(** Float division: dividing by zero raises. *)
Definition div (a b : R) : result R :=
  if Req_dec_T b 0 then Raise ZeroDivisionError else Ok (a / b).

(** ** Sensor update: the loop body of [update_particles_with_laser] *)

Section Sensor.

Context `{World}.

(** The scan endpoint of bearing [deg] seen from particle [p]. *)
Definition endpoint (p : Particle) (r : R) (deg : nat) : R * R :=
  (x p + r * cos (theta p + radians deg), y p + r * sin (theta p + radians deg)).

(** State of the inner [for theta in range(0,360,10)] loop. *)
Record scan_loop : Type := mkLoop {
  l_particle : Particle;      (* the particle, with the weight written so far *)
  l_error : list R;           (* the list [error] *)
  l_queries : list nat        (* bearings whose endpoint was looked up, in order *)
}.

(** [err]: the distance looked up for bearing [deg], read from particle
    [p]; raises when the scan has no reading [deg]. *)
Definition bearing_error (ranges : list R) (p : Particle) (deg : nat)
  : result (option R) :=
  let* r := index ranges deg in
  let q := endpoint p r deg in
  Ok (get_closest_obstacle_distance (fst q) (snd q)).

Fixpoint inner_loop (ranges : list R) (thetas : list nat) (st : scan_loop)
  : result scan_loop :=
  match thetas with
  | [] => Ok st
  | deg :: rest =>
      let p := l_particle st in
      let* err := bearing_error ranges p deg in
      match err with
      | None =>
          (* particle.w = 0 ; break *)
          Ok (mkLoop (set_w p 0) (l_error st) (l_queries st ++ [deg]))
      | Some err =>
          inner_loop ranges rest
            (mkLoop p (l_error st ++ [err ^ 5]) (l_queries st ++ [deg]))
      end
  end.

(** Every distance the field returns is non-negative. *)
Definition field_nonneg : Prop :=
  forall a b d, get_closest_obstacle_distance a b = Some d -> 0 <= d.

(** The inner loop as one particle runs it. *)
Definition scan_particle (ranges : list R) (p : Particle) : result scan_loop :=
  inner_loop ranges range_0_360_10 (mkLoop p [] []).

(** The body of the outer [for particle in self.particle_cloud] loop: the
    inner loop, then the [if sum(error) == 0 ... else ...] that follows it
    on every path, the [break] included. *)
Definition reweigh (ranges : list R) (p : Particle) : result Particle :=
  let* st := scan_particle ranges p in
  if Req_dec_T (sum (l_error st)) 0
  then Ok (set_w (l_particle st) 1)
  else Ok (set_w (l_particle st) (1 / sum (l_error st))).

End Sensor.

(** ** The node and its methods *)

Section Node.

Context `{World}.

(** The attributes of [ParticleFilter] that the methods below read or
    write, with the outputs of the node and numpy's generator.  An
    attribute that [__init__] does not create is [None] until a method
    assigns it. *)
Record Node : Type := mkNode {
  initialized : bool;
  particle_cloud : list Particle;
  (** [[]] until the first scan, then an [(x, y, theta)] tuple *)
  current_odom_xy_theta : option (R * R * R);
  (** [self.odom_pose], through its [(x, y, yaw)] reading *)
  odom_pose : option (R * R * R);
  robot_pose : option Pose;
  translation : option Translation;
  rotation : option Rotation;
  (** draws of the global generator consumed so far *)
  drawn : nat;
  (** messages published on [particlecloud], oldest first *)
  particle_pub : list (list Pose);
  (** transforms sent by [tf_broadcaster], oldest first *)
  tf_broadcaster : list (Translation * Rotation);
  (** history variable: the offsets assigned by
      [fix_map_to_odom_transform], oldest first; no method reads it *)
  computed : list (Translation * Rotation)
}.

Definition set_initialized (v : bool) (s : Node) : Node :=
  mkNode v (particle_cloud s) (current_odom_xy_theta s) (odom_pose s)
    (robot_pose s) (translation s) (rotation s) (drawn s) (particle_pub s)
    (tf_broadcaster s) (computed s).

Definition set_particle_cloud (v : list Particle) (s : Node) : Node :=
  mkNode (initialized s) v (current_odom_xy_theta s) (odom_pose s)
    (robot_pose s) (translation s) (rotation s) (drawn s) (particle_pub s)
    (tf_broadcaster s) (computed s).

Definition set_current_odom_xy_theta (v : option (R * R * R)) (s : Node) : Node :=
  mkNode (initialized s) (particle_cloud s) v (odom_pose s)
    (robot_pose s) (translation s) (rotation s) (drawn s) (particle_pub s)
    (tf_broadcaster s) (computed s).

Definition set_odom_pose (v : option (R * R * R)) (s : Node) : Node :=
  mkNode (initialized s) (particle_cloud s) (current_odom_xy_theta s) v
    (robot_pose s) (translation s) (rotation s) (drawn s) (particle_pub s)
    (tf_broadcaster s) (computed s).

Definition set_robot_pose (v : option Pose) (s : Node) : Node :=
  mkNode (initialized s) (particle_cloud s) (current_odom_xy_theta s) (odom_pose s)
    v (translation s) (rotation s) (drawn s) (particle_pub s)
    (tf_broadcaster s) (computed s).

(** [(self.translation, self.rotation) = v], with the history entry. *)
Definition set_translation_rotation (v : Translation * Rotation) (s : Node) : Node :=
  mkNode (initialized s) (particle_cloud s) (current_odom_xy_theta s) (odom_pose s)
    (robot_pose s) (Some (fst v)) (Some (snd v)) (drawn s) (particle_pub s)
    (tf_broadcaster s) (computed s ++ [v]).

Definition set_drawn (v : nat) (s : Node) : Node :=
  mkNode (initialized s) (particle_cloud s) (current_odom_xy_theta s) (odom_pose s)
    (robot_pose s) (translation s) (rotation s) v (particle_pub s)
    (tf_broadcaster s) (computed s).

Definition publish (v : list Pose) (s : Node) : Node :=
  mkNode (initialized s) (particle_cloud s) (current_odom_xy_theta s) (odom_pose s)
    (robot_pose s) (translation s) (rotation s) (drawn s) (particle_pub s ++ [v])
    (tf_broadcaster s) (computed s).

Definition sendTransform (v : Translation * Rotation) (s : Node) : Node :=
  mkNode (initialized s) (particle_cloud s) (current_odom_xy_theta s) (odom_pose s)
    (robot_pose s) (translation s) (rotation s) (drawn s) (particle_pub s)
    (tf_broadcaster s ++ [v]) (computed s).

(** *** State and exceptions

    A method runs on the node and either returns or raises; what it wrote
    before raising stays written. *)

Definition M (A : Type) : Type := Node -> result A * Node.

Definition ret {A : Type} (a : A) : M A := fun s => (Ok a, s).

Definition raise {A : Type} (e : exn) : M A := fun s => (Raise e, s).

Definition mbind {A B : Type} (m : M A) (k : A -> M B) : M B :=
  fun s =>
    match m s with
    | (Ok a, s') => k a s'
    | (Raise e, s') => (Raise e, s')
    end.

Definition gets {A : Type} (f : Node -> A) : M A := fun s => (Ok (f s), s).

Definition modify (f : Node -> Node) : M unit := fun s => (Ok tt, f s).

Definition lift {A : Type} (r : result A) : M A := fun s => (r, s).

(** Reading an attribute that may not exist yet. *)
Definition attr {A : Type} (f : Node -> option A) : M A :=
  fun s =>
    match f s with
    | Some a => (Ok a, s)
    | None => (Raise AttributeError, s)
    end.

End Node.

Notation "x <- m ;; k" := (mbind m (fun x => k))
  (at level 61, m at next level, right associativity).
Notation "m ;; k" := (mbind m (fun _ => k))
  (at level 61, right associativity).

(** Decidable comparisons of reals, as booleans. *)
Definition gtb (a b : R) : bool := if Rgt_dec a b then true else false.
Definition leb (a b : R) : bool := if Rle_dec a b then true else false.

(** ** numpy helpers of [draw_random_sample] *)

(** [np.add.accumulate]: running sums. *)
Fixpoint accumulate_from (acc : R) (l : list R) : list R :=
  match l with
  | [] => []
  | p :: rest => (acc + p) :: accumulate_from (acc + p) rest
  end.

Definition accumulate (l : list R) : list R :=
  match l with
  | [] => []
  | p :: rest => p :: accumulate_from p rest
  end.

Fixpoint nondecreasing (l : list R) : bool :=
  match l with
  | a :: rest =>
      match rest with
      | b :: _ => leb a b && nondecreasing rest
      | [] => true
      end
  | [] => true
  end.

Fixpoint nonincreasing (l : list R) : bool :=
  match l with
  | a :: rest =>
      match rest with
      | b :: _ => leb b a && nonincreasing rest
      | [] => true
      end
  | [] => true
  end.

(** [np.digitize(us, bins)] with the default [right=False]: for increasing
    bins the index [i] with [bins[i-1] <= u < bins[i]], for decreasing bins
    the one with [bins[i-1] > u >= bins[i]]; bins that are neither raise. *)
Definition digitize (us bins : list R) : result (list nat) :=
  if nondecreasing bins
  then Ok (map (fun u => length (filter (fun b => leb b u) bins)) us)
  else if nonincreasing bins
  then Ok (map (fun u => length (filter (fun b => gtb b u) bins)) us)
  else Raise ValueError.

(** ** Constants of [__init__] and of the methods *)

Definition n_particles : nat := 500.
Definition d_thresh : R := 1 / 10.
Definition a_thresh : R := PI / 12.
Definition odom_noise : R := 3 / 10.
Definition lin_noise : R := 1.
Definition ang_noise : R := PI / 2.

(** [random_sample()*odom_noise+(1-odom_noise/2.0)] *)
Definition noise (u : R) : R := u * odom_noise + (1 - odom_noise / 2).

(** The particle that one pass of the loop body of
    [update_particles_with_odom] leaves, as a function of the four noise
    factors it drew. *)
Definition advance (delta old_odom_xy_theta : R * R * R) (n1 n2 n3 n4 : R)
    (particle : Particle) : Particle :=
  let '(delta0, delta1, delta2) := delta in
  let '(_, _, old2) := old_odom_xy_theta in
  let r1 := arctan2 delta1 delta0 - old2 in
  let d := sqrt (Rsqr delta0 + Rsqr delta1) in
  let r2 := delta2 - r1 in
  let theta1 := theta particle + r1 * n1 in
  mkParticle (x particle + d * cos theta1 * n2)
             (y particle + d * sin theta1 * n3)
             (theta1 + r2 * n4)
             (w particle).


(** The cloud after the loop of [update_particles_with_odom], when [k]
    draws were consumed before it: the particle at position [i] uses the
    draws [k + 4 i] to [k + 4 i + 3]. *)
Fixpoint advance_all `{World} (delta old_odom_xy_theta : R * R * R) (k : nat)
    (cloud : list Particle) : list Particle :=
  match cloud with
  | [] => []
  | p :: rest =>
      advance delta old_odom_xy_theta
        (noise (random_stream k)) (noise (random_stream (k + 1)))
        (noise (random_stream (k + 2))) (noise (random_stream (k + 3))) p
      :: advance_all delta old_odom_xy_theta (k + 4) rest
  end.

(** The accumulators of the loop of [update_robot_pose]. *)
Record mean_acc : Type := mkAcc {
  mean_particle : Particle;
  mean_particle_theta_x : R;
  mean_particle_theta_y : R
}.

Definition mean_step (acc : mean_acc) (particle : Particle) : mean_acc :=
  let m := mean_particle acc in
  let m' := mkParticle (x m + x particle * w particle)
                       (y m + y particle * w particle) (theta m) (w m) in
  let distance_vector := sqrt (Rsqr (y particle) + Rsqr (x particle)) in
  mkAcc m'
    (mean_particle_theta_x acc + distance_vector * cos (theta particle) * w particle)
    (mean_particle_theta_y acc + distance_vector * sin (theta particle) * w particle).

(** [mean_particle] as [update_robot_pose] leaves it, for the cloud it
    loops over. *)
Definition mean_pose (cloud : list Particle) : Particle :=
  let acc := fold_left mean_step cloud (mkAcc (mkParticle 0 0 0 0) 0 0) in
  let m := mean_particle acc in
  mkParticle (x m) (y m)
    (arctan2 (mean_particle_theta_y acc) (mean_particle_theta_x acc)) (w m).

(** What a scan callback observes: the message, and the answers of the
    transform listener at the message's stamp. *)
Record LaserScan `{World} : Type := mkScan {
  ranges : list R;
  (** [canTransform(base_frame, msg.header.frame_id, stamp)] *)
  can_transform_laser : bool;
  (** [canTransform(base_frame, odom_frame, stamp)] *)
  can_transform_odom : bool;
  (** [convert_pose_to_xy_and_theta] of the base pose in the odom frame *)
  scan_odom_xy_theta : R * R * R;
  (** [waitForTransform] then [transformPose(odom_frame, .)] at the stamp *)
  scan_to_odom_frame : Pose -> result Pose
}.

Arguments mkScan {_} _ _ _ _ _.

(** An [initialpose] message. *)
Record InitialPose `{World} : Type := mkInitialPose {
  (** [convert_pose_to_xy_and_theta(msg.pose.pose)] *)
  pose_xy_theta : R * R * R;
  pose_to_odom_frame : Pose -> result Pose
}.

Arguments mkInitialPose {_} _ _.

Inductive event `{World} : Type :=
| Constructed                       (* [__init__] ends: [initialized = True] *)
| Scan (msg : LaserScan)
| NewInitialPose (msg : InitialPose)
| Tick.                             (* one turn of the main loop *)

Section Methods.

Context `{World}.

(** [random_sample()] *)
Definition random_sample : M R :=
  fun s => (Ok (random_stream (drawn s)), set_drawn (S (drawn s)) s).

(** [random_sample(n)] *)
Fixpoint random_samples (n : nat) : M (list R) :=
  match n with
  | O => ret []
  | S n' =>
      u <- random_sample ;;
      us <- random_samples n' ;;
      ret (u :: us)
  end.

(** [for particle in self.particle_cloud: ...] where the body writes the
    particle's attributes: [done] are the particles already visited,
    [todo] those still to visit. *)
Fixpoint for_particles (body : Particle -> M Particle) (done todo : list Particle)
  : M unit :=
  match todo with
  | [] => ret tt
  | p :: rest =>
      p' <- body p ;;
      modify (set_particle_cloud (done ++ p' :: rest)) ;;
      for_particles body (done ++ [p']) rest
  end.

Definition for_each_particle (body : Particle -> M Particle) : M unit :=
  cloud <- gets particle_cloud ;;
  for_particles body [] cloud.

(** [for _ in range(n): body] *)
Fixpoint repeatM (n : nat) (body : M unit) : M unit :=
  match n with
  | O => ret tt
  | S n' => body ;; repeatM n' body
  end.

Definition normalize_particles : M unit :=
  cloud <- gets particle_cloud ;;
  let weights_sum := weights_sum cloud in
  for_each_particle (fun particle =>
    v <- lift (div (w particle) weights_sum) ;;
    ret (set_w particle v)).

Definition update_robot_pose : M unit :=
  normalize_particles ;;
  cloud <- gets particle_cloud ;;
  modify (set_robot_pose (Some (as_pose (mean_pose cloud)))).

(** The loop body of [update_particles_with_odom]. *)
Definition move_particle (delta old_odom_xy_theta : R * R * R) (particle : Particle)
  : M Particle :=
  let '(delta0, delta1, delta2) := delta in
  let '(_, _, old2) := old_odom_xy_theta in
  let r1 := arctan2 delta1 delta0 - old2 in
  let d := sqrt (Rsqr delta0 + Rsqr delta1) in
  let r2 := delta2 - r1 in
  u1 <- random_sample ;;
  let theta1 := theta particle + r1 * noise u1 in
  u2 <- random_sample ;;
  let x1 := x particle + d * cos theta1 * noise u2 in
  u3 <- random_sample ;;
  let y1 := y particle + d * sin theta1 * noise u3 in
  u4 <- random_sample ;;
  let theta2 := theta1 + r2 * noise u4 in
  ret (mkParticle x1 y1 theta2 (w particle)).

Definition update_particles_with_odom : M unit :=
  new_odom_xy_theta <- attr odom_pose ;;
  current <- gets current_odom_xy_theta ;;
  match current with
  | Some old_odom_xy_theta =>
      let '(new0, new1, new2) := new_odom_xy_theta in
      let '(old0, old1, old2) := old_odom_xy_theta in
      let delta := (new0 - old0, new1 - old1, new2 - old2) in
      modify (set_current_odom_xy_theta (Some new_odom_xy_theta)) ;;
      for_each_particle (move_particle delta old_odom_xy_theta)
  | None =>
      modify (set_current_odom_xy_theta (Some new_odom_xy_theta))
  end.

Definition update_particles_with_laser (msg : LaserScan) : M unit :=
  for_each_particle (fun particle => lift (reweigh (ranges msg) particle)).

(** [deepcopy] of a particle, as a value. *)
Definition draw_random_sample (choices : list Particle) (probabilities : list R)
    (n : nat) : M (list Particle) :=
  let values := seq 0 (length choices) in
  let bins := accumulate probabilities in
  us <- random_samples n ;;
  ds <- lift (digitize us bins) ;;
  inds <- lift (mapM (index values) ds) ;;
  lift (mapM (index choices) inds).

Definition resample_particles : M unit :=
  normalize_particles ;;
  cloud <- gets particle_cloud ;;
  let choices := cloud in
  let probabilities := map w cloud in
  let num_samples := length cloud in
  samples <- draw_random_sample choices probabilities num_samples ;;
  modify (set_particle_cloud samples).

Definition initialize_particle_cloud (xy_theta : option (R * R * R)) : M unit :=
  xy_theta <- match xy_theta with
              | Some v => ret v
              | None => attr odom_pose
              end ;;
  let '(xy0, xy1, xy2) := xy_theta in
  modify (set_particle_cloud []) ;;
  repeatM n_particles
    (u1 <- random_sample ;;
     u2 <- random_sample ;;
     u3 <- random_sample ;;
     cloud <- gets particle_cloud ;;
     modify (set_particle_cloud
               (cloud ++ [mkParticle (xy0 + (u1 * lin_noise - lin_noise / 2))
                                     (xy1 + (u2 * lin_noise - lin_noise / 2))
                                     (xy2 + (u3 * ang_noise - ang_noise / 2)) 1]))) ;;
  normalize_particles ;;
  update_robot_pose.

Definition publish_particles : M unit :=
  cloud <- gets particle_cloud ;;
  modify (publish (map as_pose cloud)).

Definition fix_map_to_odom_transform (to_odom_frame : Pose -> result Pose) : M unit :=
  robot_pose <- attr robot_pose ;;
  let '(translation, rotation) := convert_pose_inverse_transform robot_pose in
  let p := convert_translation_rotation_to_pose translation rotation in
  odom_to_map <- lift (to_odom_frame p) ;;
  modify (set_translation_rotation (convert_pose_inverse_transform odom_to_map)).

Definition broadcast_last_transform : M unit :=
  translation <- gets translation ;;
  rotation <- gets rotation ;;
  match translation, rotation with
  | Some t, Some r => modify (sendTransform (t, r))
  | _, _ => ret tt
  end.

Definition update_initial_pose (msg : InitialPose) : M unit :=
  initialize_particle_cloud (Some (pose_xy_theta msg)) ;;
  fix_map_to_odom_transform (pose_to_odom_frame msg).

(** The condition of the [elif] of [scan_received]. *)
Definition moved (new_odom_xy_theta current : R * R * R) : bool :=
  let '(new0, new1, new2) := new_odom_xy_theta in
  let '(cur0, cur1, cur2) := current in
  gtb (Rabs (new0 - cur0)) d_thresh
  || gtb (Rabs (new1 - cur1)) d_thresh
  || gtb (Rabs (new2 - cur2)) a_thresh.

(** The body of the [elif] of [scan_received]: one estimation cycle. *)
Definition update_cycle (msg : LaserScan) : M unit :=
  update_particles_with_odom ;;
  update_particles_with_laser msg ;;
  update_robot_pose ;;
  resample_particles ;;
  fix_map_to_odom_transform (scan_to_odom_frame msg).

Definition scan_received (msg : LaserScan) : M unit :=
  ready <- gets initialized ;;
  if negb ready then ret tt
  else if negb (can_transform_laser msg) then ret tt
  else if negb (can_transform_odom msg) then ret tt
  else
    modify (set_odom_pose (Some (scan_odom_xy_theta msg))) ;;
    let new_odom_xy_theta := scan_odom_xy_theta msg in
    cloud <- gets particle_cloud ;;
    match cloud with
    | [] =>
        initialize_particle_cloud None ;;
        modify (set_current_odom_xy_theta (Some new_odom_xy_theta)) ;;
        fix_map_to_odom_transform (scan_to_odom_frame msg)
    | _ :: _ =>
        current <- gets current_odom_xy_theta ;;
        match current with
        | None => raise IndexError
        | Some current =>
            if moved new_odom_xy_theta current then update_cycle msg else ret tt
        end
    end ;;
    publish_particles.

(** The node between callbacks: rospy logs an exception a callback raises
    and keeps the node running. *)
Definition callback (e : event) : M unit :=
  match e with
  | Constructed => modify (set_initialized true)
  | Scan msg => scan_received msg
  | NewInitialPose msg => update_initial_pose msg
  | Tick => broadcast_last_transform
  end.

Definition handle (s : Node) (e : event) : Node := snd (callback e s).

Definition run (es : list event) (s : Node) : Node := fold_left handle es s.

(** The node while [__init__] runs. *)
Definition node0 : Node := mkNode false [] None None None None None 0 [] [] [].

End Methods.

(** ** The transform state

    What [fix_map_to_odom_transform] writes and [broadcast_last_transform]
    reads or sends. *)

Section TransformState.

Context `{World}.

Definition tf_view (s : Node)
  : option Translation * option Rotation
    * list (Translation * Rotation) * list (Translation * Rotation) :=
  (translation s, rotation s, tf_broadcaster s, computed s).

(** A computation that leaves the transform state alone, whether it
    returns or raises. *)
Definition keeps_tf {A : Type} (m : M A) : Prop :=
  forall s, tf_view (snd (m s)) = tf_view s.

(** Every transform sent was assigned by [fix_map_to_odom_transform], and
    the two attributes exist together and hold the last assigned offset. *)
Definition tf_inv (s : Node) : Prop :=
  (forall tr, In tr (tf_broadcaster s) -> In tr (computed s))
  /\ match translation s, rotation s with
     | None, None => computed s = []
     | Some t, Some r => exists before, computed s = before ++ [(t, r)]
     | _, _ => False
     end.

(** A computation that keeps the invariant, whether it returns or
    raises. *)
Definition preserves {A : Type} (m : M A) : Prop :=
  forall s, tf_inv s -> tf_inv (snd (m s)).

End TransformState.

(** ** Resampling on the object store

    Here a particle is a Python object: the heap lists the objects, an
    address is a position in it, and a cloud is a list of addresses, so that
    two entries of a cloud may be one object.  [deepcopy] allocates. *)

Module Refs.

Definition heap : Type := list Particle.
Definition address : Type := nat.

(** The object at an address (every address of a cloud has one). *)
Definition deref (h : heap) (a : address) : result Particle := index h a.

Fixpoint store (h : heap) (a : address) (p : Particle) : heap :=
  match h, a with
  | [], _ => []
  | _ :: rest, O => p :: rest
  | q :: rest, S a' => q :: store rest a' p
  end.

(** [deepcopy(particle)]: a new object with the same attributes. *)
Definition deepcopy (h : heap) (a : address) : result (heap * address) :=
  let* p := deref h a in
  Ok (h ++ [p], length h).

(** The loop of [normalize_particles]: [particle.w /= weights_sum]. *)
Fixpoint normalize_loop (weights_sum : R) (h : heap) (todo : list address)
  : result heap :=
  match todo with
  | [] => Ok h
  | a :: rest =>
      let* particle := deref h a in
      let* v := div (w particle) weights_sum in
      normalize_loop weights_sum (store h a (set_w particle v)) rest
  end.

Definition normalize_particles (h : heap) (cloud : list address) : result heap :=
  let* particles := mapM (deref h) cloud in
  let weights_sum := weights_sum particles in
  normalize_loop weights_sum h cloud.

(** The loop [for i in inds: samples.append(deepcopy(choices[int(i)]))]. *)
Fixpoint copy_loop (choices : list address) (inds : list nat) (h : heap)
    (samples : list address) : result (heap * list address) :=
  match inds with
  | [] => Ok (h, samples)
  | i :: rest =>
      let* a := index choices i in
      let* c := deepcopy h a in
      copy_loop choices rest (fst c) (samples ++ [snd c])
  end.

Section Draw.

Context `{World}.

(** [k] is the number of draws consumed before the call. *)
Definition draw_random_sample (h : heap) (choices : list address)
    (probabilities : list R) (n k : nat) : result (heap * list address) :=
  let values := seq 0 (length choices) in
  let bins := accumulate probabilities in
  let us := map random_stream (seq k n) in
  let* ds := digitize us bins in
  let* inds := mapM (index values) ds in
  copy_loop choices inds h [].

Definition resample_particles (h : heap) (cloud : list address) (k : nat)
  : result (heap * list address) :=
  let* h1 := normalize_particles h cloud in
  let choices := cloud in
  let* particles := mapM (deref h1) cloud in
  let probabilities := map w particles in
  let num_samples := length cloud in
  draw_random_sample h1 choices probabilities num_samples k.

End Draw.

(** The [(x, y, theta)] of a particle. *)
Definition pose_of (p : Particle) : R * R * R := (x p, y p, theta p).

End Refs.

(** ** The loop of [initialize_particle_cloud] *)

(** The particles that the loop of [initialize_particle_cloud] appends when
    [k] draws were consumed before it: the particle at position [i] uses the
    draws [k + 3 i] to [k + 3 i + 2], and has the default weight [1.0] of
    the constructor. *)
Fixpoint initial_cloud `{World} (xy_theta : R * R * R) (k n : nat) : list Particle :=
  match n with
  | O => []
  | S n' =>
      mkParticle
        (fst (fst xy_theta) + (random_stream k * lin_noise - lin_noise / 2))
        (snd (fst xy_theta) + (random_stream (k + 1) * lin_noise - lin_noise / 2))
        (snd xy_theta + (random_stream (k + 2) * ang_noise - ang_noise / 2)) 1
      :: initial_cloud xy_theta (k + 3) n'
  end.

(** ** Properties of the node that the methods keep *)

Section Invariants.

Context `{World}.

(** A property of the node that a computation keeps, whether it returns or
    raises. *)
Definition invariant {A : Type} (Q : Node -> Prop) (m : M A) : Prop :=
  forall s, Q s -> Q (snd (m s)).

(** A computation that leaves the cloud with as many particles as it found,
    whether it returns or raises. *)
Definition keeps_length {A : Type} (m : M A) : Prop :=
  forall s, length (particle_cloud (snd (m s))) = length (particle_cloud s).

(** The cloud is empty, as [__init__] leaves it, or has [n_particles]
    particles. *)
Definition cloud_sized (s : Node) : Prop :=
  length (particle_cloud s) = 0%nat \/ length (particle_cloud s) = n_particles.

(** A cloud exists, no odometry pose was recorded yet, and the messages
    published so far are [pub]. *)
Definition awaiting_odom (pub : list (list Pose)) (s : Node) : Prop :=
  particle_cloud s <> []
  /\ current_odom_xy_theta s = None
  /\ particle_pub s = pub.

(** The scan is one that [scan_received] does not return early on. *)
Definition usable (msg : LaserScan) : Prop :=
  can_transform_laser msg = true /\ can_transform_odom msg = true.

End Invariants.

(** ** The methods on binary64

    Python's [float] and numpy's [float64] are IEEE 754 binary64 numbers,
    rounded to nearest, ties to even.  Where the rounding decides what a
    method returns (the bins of [draw_random_sample], the heading that
    [update_robot_pose] gives when the weighted headings cancel), the method
    is written here on the kernel's binary64 numbers, operation by operation
    as the source has them.  A function of this module returns the cloud the
    method leaves when it returns. *)

Module Binary64.

Local Open Scope float_scope.

Local Abbreviation float := PrimFloat.float.

Record Particle : Type := mkParticle { x : float; y : float; theta : float; w : float }.

Definition set_w (p : Particle) (v : float) : Particle :=
  mkParticle (x p) (y p) (theta p) v.

(** Python's [sum]: starts from [0] and adds from the left. *)
Definition sum (l : list float) : float := fold_left PrimFloat.add l 0.

(** [sum(particle.w for particle in self.particle_cloud)] *)
Definition weights_sum (cloud : list Particle) : float := sum (map w cloud).

(** Float division: dividing by a zero of either sign raises. *)
Definition div (a b : float) : result float :=
  if b =? 0 then Raise ZeroDivisionError else Ok (a / b).

Definition normalize_particles (cloud : list Particle) : result (list Particle) :=
  let weights_sum := weights_sum cloud in
  mapM (fun particle =>
          let* v := div (w particle) weights_sum in
          Ok (set_w particle v)) cloud.

(** [np.add.accumulate]: running sums, each the rounded sum of the one
    before and the next entry. *)
Fixpoint accumulate_from (acc : float) (l : list float) : list float :=
  match l with
  | [] => []
  | p :: rest => (acc + p) :: accumulate_from (acc + p) rest
  end.

Definition accumulate (l : list float) : list float :=
  match l with
  | [] => []
  | p :: rest => p :: accumulate_from p rest
  end.

Fixpoint nondecreasing (l : list float) : bool :=
  match l with
  | a :: rest =>
      match rest with
      | b :: _ => (a <=? b) && nondecreasing rest
      | [] => true
      end
  | [] => true
  end.

Fixpoint nonincreasing (l : list float) : bool :=
  match l with
  | a :: rest =>
      match rest with
      | b :: _ => (b <=? a) && nonincreasing rest
      | [] => true
      end
  | [] => true
  end.

(** [np.digitize(us, bins)] with the default [right=False]: for increasing
    bins the number of bins that are at most [u], which is [len(bins)] when
    [u] is not below the last bin. *)
Definition digitize (us bins : list float) : result (list nat) :=
  if nondecreasing bins
  then Ok (map (fun u => length (filter (fun b => b <=? u) bins)) us)
  else if nonincreasing bins
  then Ok (map (fun u => length (filter (fun b => u <? b) bins)) us)
  else Raise ValueError.

Section Draw.

(** the successive values of [numpy.random.random_sample()] *)
Variable random_stream : nat -> float.

(** [k] is the number of draws consumed before the call. *)
Definition draw_random_sample (choices : list Particle) (probabilities : list float)
    (n k : nat) : result (list Particle) :=
  let values := seq 0 (length choices) in
  let bins := accumulate probabilities in
  let us := map random_stream (seq k n) in
  let* ds := digitize us bins in
  let* inds := mapM (index values) ds in
  mapM (index choices) inds.

Definition resample_particles (cloud : list Particle) (k : nat)
  : result (list Particle) :=
  let* cloud := normalize_particles cloud in
  let choices := cloud in
  let probabilities := map w cloud in
  let num_samples := length cloud in
  draw_random_sample choices probabilities num_samples k.

End Draw.

(** numpy's functions that the kernel's binary64 does not provide. *)
Class Libm : Type := {
  np_cos : float -> float;
  np_sin : float -> float;
  (** [np.arctan2(b, a)] *)
  np_arctan2 : float -> float -> float
}.

(** The accumulators of the loop of [update_robot_pose]. *)
Record mean_acc : Type := mkAcc {
  mean_particle : Particle;
  mean_particle_theta_x : float;
  mean_particle_theta_y : float
}.

Definition mean_step `{L : Libm} (acc : mean_acc) (particle : Particle) : mean_acc :=
  let m := mean_particle acc in
  let m' := mkParticle (x m + x particle * w particle)
                       (y m + y particle * w particle) (theta m) (w m) in
  let distance_vector :=
    PrimFloat.sqrt (y particle * y particle + x particle * x particle) in
  mkAcc m'
    (mean_particle_theta_x acc + distance_vector * np_cos (theta particle) * w particle)
    (mean_particle_theta_y acc + distance_vector * np_sin (theta particle) * w particle).

(** [update_robot_pose]: the cloud it leaves and the [mean_particle] whose
    pose it stores. *)
Definition update_robot_pose `{L : Libm} (cloud : list Particle)
  : result (list Particle * Particle) :=
  let* cloud := normalize_particles cloud in
  let acc := fold_left mean_step cloud (mkAcc (mkParticle 0 0 0 0) 0 0) in
  let m := mean_particle acc in
  Ok (cloud,
      mkParticle (x m) (y m)
        (np_arctan2 (mean_particle_theta_y acc) (mean_particle_theta_x acc)) (w m)).

End Binary64.

(** ** Concrete worlds, for the examples *)

(** A map with no mapped point: every lookup is out of bounds. *)
Definition world_unmapped : World := {|
  Pose := R * R * R;
  Translation := R * R;
  Rotation := R;
  as_pose := fun p => (x p, y p, theta p);
  convert_pose_inverse_transform := fun q => (fst (fst q), snd (fst q), snd q);
  convert_translation_rotation_to_pose := fun t r => (fst t, snd t, r);
  get_closest_obstacle_distance := fun _ _ => None;
  random_stream := fun _ => 0
|}.

(** An empty field: every point is mapped, at distance [1/2] of the nearest
    obstacle. *)
Definition world_open_field : World := {|
  Pose := R * R * R;
  Translation := R * R;
  Rotation := R;
  as_pose := fun p => (x p, y p, theta p);
  convert_pose_inverse_transform := fun q => (fst (fst q), snd (fst q), snd q);
  convert_translation_rotation_to_pose := fun t r => (fst t, snd t, r);
  get_closest_obstacle_distance := fun _ _ => Some (1 / 2);
  random_stream := fun _ => 0
|}.

(** A scan whose 360 readings are all [1]. *)
Definition unit_scan `{World} : LaserScan :=
  mkScan (repeat 1 360) true true (0, 0, 0) (fun q => Ok q).

(** A node holding the given cloud, with nothing else recorded. *)
Definition node_with_cloud `{World} (cloud : list Particle) : Node :=
  mkNode true cloud None None None None None 0 [] [] [].

(** A generator whose third draw is [1/2] and whose other draws are [0]. *)
Definition world_uneven_draws : World := {|
  Pose := R * R * R;
  Translation := R * R;
  Rotation := R;
  as_pose := fun p => (x p, y p, theta p);
  convert_pose_inverse_transform := fun q => (fst (fst q), snd (fst q), snd q);
  convert_translation_rotation_to_pose := fun t r => (fst t, snd t, r);
  get_closest_obstacle_distance := fun _ _ => Some (1 / 2);
  random_stream := fun k => if Nat.eqb k 2 then 1 / 2 else 0
|}.

(** One particle heading [PI/4] at the origin, the last odometry pose at the
    origin, the new one a unit step along [x]. *)
Definition node_unit_step `{World} : Node :=
  mkNode true [mkParticle 0 0 (PI / 4) 1] (Some (0, 0, 0)) (Some (1, 0, 0))
    None None None 0 [] [] [].

(** An initial pose at the origin, with a listener that answers. *)
Definition origin_initial_pose `{World} : InitialPose :=
  mkInitialPose (0, 0, 0) (fun q => Ok q).

(** The scan [unit_scan] with another second reading. *)
Definition unit_scan_but_one `{World} : LaserScan :=
  mkScan (1 :: 7 :: repeat 1 358) true true (0, 0, 0) (fun q => Ok q).

(** A scan of 360 readings of [1], taken a unit step along [x] from the
    origin of the odometry frame. *)
Definition step_scan `{World} : LaserScan :=
  mkScan (repeat 1 360) true true (1, 0, 0) (fun q => Ok q).

(** *** Binary64 inputs *)

(** [math.pi], [math.pi / 2] and [np.sin(math.pi)]. *)
Definition pi_double : PrimFloat.float := 0x1.921fb54442d18p+1%float.
Definition half_pi_double : PrimFloat.float := 0x1.921fb54442d18p+0%float.
Definition sin_pi_double : PrimFloat.float := 0x1.1a62633145c07p-53%float.

(** numpy's values at the arguments [0] and [math.pi], and [np.arctan2] on
    the positive [b] axis; the table has no other entry. *)
Definition libm_at_zero_and_pi : Binary64.Libm := {|
  Binary64.np_cos := fun t =>
    if (t =? 0)%float then 1%float
    else if (t =? pi_double)%float then (-1)%float
    else PrimFloat.nan;
  Binary64.np_sin := fun t =>
    if (t =? 0)%float then 0%float
    else if (t =? pi_double)%float then sin_pi_double
    else PrimFloat.nan;
  Binary64.np_arctan2 := fun b a =>
    if ((a =? 0) && (0 <? b))%float then half_pi_double else PrimFloat.nan
|}.

(** Two particles of weight [0.5] at [(1, 0)] with headings [0] and
    [math.pi]. *)
Definition opposite_headings : list Binary64.Particle :=
  [Binary64.mkParticle 1 0 0 0.5; Binary64.mkParticle 1 0 pi_double 0.5].

(** [1.0 / 9], the weight that [normalize_particles] gives each of nine
    particles of equal weight. *)
Definition ninth : PrimFloat.float := 0x1.c71c71c71c71cp-4%float.

(** Nine particles along the [x] axis, each of weight [ninth]. *)
Definition nine_equal_weights : list Binary64.Particle :=
  map (fun i => Binary64.mkParticle i 0 0 ninth)
      [0; 1; 2; 3; 4; 5; 6; 7; 8]%float.

(** The largest value of [random_sample()]: [1 - 2^-53]. *)
Definition largest_draw : PrimFloat.float := 0x1.fffffffffffffp-1%float.

(** Five hundred particles at the origin with the weights a sensor update
    can leave: [2.0] for the first, [1.0] for the others. *)
Definition one_heavy_particle : list Binary64.Particle :=
  Binary64.mkParticle 0 0 0 2 :: repeat (Binary64.mkParticle 0 0 0 1) 499.

(** The same cloud with normalised weights, [2.0 / 501] and [1.0 / 501]. *)
Definition one_heavy_particle_normalized : list Binary64.Particle :=
  Binary64.mkParticle 0 0 0 0x1.059eea0727586p-8
  :: repeat (Binary64.mkParticle 0 0 0 0x1.059eea0727586p-9) 499.

(** * Properties *)

(** ** Sums *)

Lemma fold_left_Rplus_acc (l : list R) (a : R) :
  fold_left Rplus l a = a + sum l.
Proof.
  unfold sum. revert a.
  induction l as [|b l IH]; intros a; simpl.
  - lra.
  - rewrite (IH (a + b)), (IH (0 + b)). lra.
Qed.

Lemma sum_nil : sum [] = 0.
Proof. reflexivity. Qed.

Lemma sum_cons (a : R) (l : list R) : sum (a :: l) = a + sum l.
Proof. unfold sum at 1. simpl. rewrite fold_left_Rplus_acc. lra. Qed.

Lemma sum_app (l1 l2 : list R) : sum (l1 ++ l2) = sum l1 + sum l2.
Proof.
  induction l1 as [|a l1 IH]; simpl.
  - rewrite sum_nil. lra.
  - rewrite !sum_cons, IH. lra.
Qed.

Lemma sum_nonneg (l : list R) : Forall (fun v => 0 <= v) l -> 0 <= sum l.
Proof.
  induction 1 as [|a l Ha _ IH].
  - rewrite sum_nil. lra.
  - rewrite sum_cons. lra.
Qed.

Lemma sum_pos (l : list R) :
  l <> [] -> Forall (fun v => 0 < v) l -> 0 < sum l.
Proof.
  intros Hne Hall. destruct Hall as [|a l Ha Hl]; [congruence|].
  rewrite sum_cons.
  assert (0 <= sum l).
  { apply sum_nonneg. eapply Forall_impl; [|exact Hl]. simpl. intros; lra. }
  lra.
Qed.

Lemma pow5_nonneg (d : R) : 0 <= d -> 0 <= d ^ 5.
Proof. intros Hd. apply pow_le. exact Hd. Qed.

(** ** The monad *)

Section MonadFacts.

Context `{World}.

Lemma set_particle_cloud_same (s : Node) :
  set_particle_cloud (particle_cloud s) s = s.
Proof. destruct s; reflexivity. Qed.

Lemma mapM_length {A B : Type} (f : A -> result B) (xs : list A) (ys : list B) :
  mapM f xs = Ok ys -> length ys = length xs.
Proof.
  revert ys. induction xs as [|a xs IH]; intros ys; simpl.
  - intros [= <-]. reflexivity.
  - destruct (f a) as [b|e]; simpl; [|discriminate].
    destruct (mapM f xs) as [bs|e]; simpl; [|discriminate].
    intros [= <-]. simpl. f_equal. apply IH. reflexivity.
Qed.

(** A loop whose body only computes the new particle visits the cloud
    from left to right and replaces each particle by what the body
    returns. *)
Lemma for_particles_lift_ok (f : Particle -> result Particle)
      (todo todo' done : list Particle) (s : Node) :
  mapM f todo = Ok todo' ->
  particle_cloud s = done ++ todo ->
  for_particles (fun p => lift (f p)) done todo s
  = (Ok tt, set_particle_cloud (done ++ todo') s).
Proof.
  revert todo' done s.
  induction todo as [|p todo IH]; intros todo' done s Hm Hs.
  - injection Hm as <-. cbn [for_particles]. unfold ret.
    rewrite <- Hs, set_particle_cloud_same. reflexivity.
  - cbn [mapM] in Hm.
    destruct (f p) as [p'|e] eqn:Hp; cbn [bind] in Hm; [|discriminate].
    destruct (mapM f todo) as [rest'|e] eqn:Hrest; cbn [bind] in Hm; [|discriminate].
    injection Hm as <-.
    cbn [for_particles]. unfold mbind, lift, modify. rewrite Hp.
    rewrite (IH rest' (done ++ [p']) _ eq_refl).
    + destruct s; simpl. rewrite <- app_assoc. reflexivity.
    + destruct s; simpl. rewrite <- app_assoc. reflexivity.
Qed.

Lemma for_each_particle_lift_ok (f : Particle -> result Particle)
      (cloud' : list Particle) (s : Node) :
  mapM f (particle_cloud s) = Ok cloud' ->
  for_each_particle (fun p => lift (f p)) s
  = (Ok tt, set_particle_cloud cloud' s).
Proof.
  intros Hm. unfold for_each_particle, mbind, gets.
  apply (for_particles_lift_ok f _ _ [] s Hm). reflexivity.
Qed.

End MonadFacts.

(** ** Sensor update *)

Lemma range_0_360_10_values :
  range_0_360_10
  = [0; 10; 20; 30; 40; 50; 60; 70; 80; 90; 100; 110; 120; 130; 140; 150; 160;
     170; 180; 190; 200; 210; 220; 230; 240; 250; 260; 270; 280; 290; 300; 310;
     320; 330; 340; 350]%nat.
Proof. reflexivity. Qed.

Lemma range_0_360_10_bound : Forall (fun deg => (deg <= 350)%nat) range_0_360_10.
Proof.
  rewrite range_0_360_10_values.
  repeat (constructor; [lia|]). constructor.
Qed.

Section SensorFacts.

Context `{World}.

(** The inner loop when every bearing it visits is mapped: it visits them
    all and appends the fifth powers. *)
Lemma inner_loop_all_mapped (ranges : list R) (thetas : list nat) (ds : list R) :
  forall st,
    Forall2 (fun deg d => bearing_error ranges (l_particle st) deg = Ok (Some d))
            thetas ds ->
    inner_loop ranges thetas st
    = Ok (mkLoop (l_particle st) (l_error st ++ map (fun d => d ^ 5) ds)
                 (l_queries st ++ thetas)).
Proof.
  revert ds. induction thetas as [|deg thetas IH]; intros ds st Hall.
  - inversion Hall; subst. simpl. rewrite !app_nil_r. destruct st; reflexivity.
  - inversion Hall as [|? d ? ds' Hd Hrest]; subst.
    cbn [inner_loop]. rewrite Hd. cbn [bind].
    rewrite (IH ds'); cbn [l_particle l_error l_queries].
    + rewrite <- !app_assoc. reflexivity.
    + exact Hrest.
Qed.

(** The inner loop when the first unmapped bearing is [deg0]: the weight is
    set to [0], [deg0] is the last bearing looked up, and the error list
    holds the bearings before it. *)
Lemma inner_loop_unmapped (ranges : list R) (pre post : list nat) (deg0 : nat)
      (ds : list R) :
  forall st,
    Forall2 (fun deg d => bearing_error ranges (l_particle st) deg = Ok (Some d))
            pre ds ->
    bearing_error ranges (l_particle st) deg0 = Ok None ->
    inner_loop ranges (pre ++ deg0 :: post) st
    = Ok (mkLoop (set_w (l_particle st) 0) (l_error st ++ map (fun d => d ^ 5) ds)
                 (l_queries st ++ pre ++ [deg0])).
Proof.
  revert ds. induction pre as [|deg pre IH]; intros ds st Hall Hnone.
  - inversion Hall; subst. cbn [app inner_loop]. rewrite Hnone. cbn [bind].
    simpl. rewrite app_nil_r. reflexivity.
  - inversion Hall as [|? d ? ds' Hd Hrest]; subst.
    cbn [app inner_loop]. rewrite Hd. cbn [bind].
    rewrite (IH ds'); cbn [l_particle l_error l_queries]; auto.
    rewrite <- !app_assoc. reflexivity.
Qed.

(** The loop raises only on a missing reading. *)
Lemma inner_loop_returns (ranges : list R) (thetas : list nat) :
  Forall (fun deg => (deg < length ranges)%nat) thetas ->
  forall st, exists st',
    inner_loop ranges thetas st = Ok st'
    /\ (x (l_particle st'), y (l_particle st'), theta (l_particle st'))
       = (x (l_particle st), y (l_particle st), theta (l_particle st)).
Proof.
  induction 1 as [|deg thetas Hdeg _ IH]; intros st.
  - exists st. split; reflexivity.
  - cbn [inner_loop]. unfold bearing_error, index.
    destruct (nth_error ranges deg) as [r|] eqn:Hr.
    2:{ apply nth_error_None in Hr. lia. }
    cbn [bind].
    destruct (get_closest_obstacle_distance _ _) as [err|].
    + destruct (IH (mkLoop (l_particle st) (l_error st ++ [err ^ 5])
                           (l_queries st ++ [deg]))) as (st' & Hst' & Hp).
      exists st'. split; [exact Hst'|exact Hp].
    + eexists. split; [reflexivity|]. reflexivity.
Qed.

Lemma inner_loop_errors_nonneg (ranges : list R) (thetas : list nat) :
  field_nonneg ->
  forall st st',
    Forall (fun v => 0 <= v) (l_error st) ->
    inner_loop ranges thetas st = Ok st' ->
    Forall (fun v => 0 <= v) (l_error st').
Proof.
  intros Hf. induction thetas as [|deg thetas IH]; intros st st' Hst Hrun.
  - injection Hrun as <-. exact Hst.
  - cbn [inner_loop] in Hrun. unfold bearing_error in Hrun.
    destruct (index ranges deg) as [r|e]; cbn [bind] in Hrun; [|discriminate].
    destruct (get_closest_obstacle_distance _ _) as [err|] eqn:Herr.
    + apply (IH _ _) in Hrun; [exact Hrun|].
      cbn [l_error]. apply Forall_app. split; [exact Hst|].
      constructor; [|constructor]. apply pow5_nonneg. eapply Hf, Herr.
    + injection Hrun as <-. exact Hst.
Qed.

(** Whatever the loop did, the weight that [reweigh] leaves is [1] or the
    inverse of a non-zero sum: it is never [0]. *)
Lemma reweigh_never_zero (ranges : list R) (p p' : Particle) :
  reweigh ranges p = Ok p' -> w p' <> 0.
Proof.
  unfold reweigh. destruct (scan_particle ranges p) as [st|e]; cbn [bind]; [|discriminate].
  destruct (Req_dec_T (sum (l_error st)) 0) as [Hz|Hnz]; intros [= <-]; simpl.
  - lra.
  - unfold Rdiv. rewrite Rmult_1_l. apply Rinv_neq_0_compat. exact Hnz.
Qed.

Lemma reweigh_positive (ranges : list R) (p p' : Particle) :
  field_nonneg -> reweigh ranges p = Ok p' -> 0 < w p'.
Proof.
  intros Hf. unfold reweigh, scan_particle.
  generalize range_0_360_10. intros thetas.
  destruct (inner_loop ranges thetas (mkLoop p [] [])) as [st|e] eqn:Hscan;
    cbn [bind]; [|discriminate].
  assert (Hnn : 0 <= sum (l_error st)).
  { apply sum_nonneg.
    eapply inner_loop_errors_nonneg; [exact Hf| |exact Hscan]. constructor. }
  destruct (Req_dec_T (sum (l_error st)) 0) as [Hz|Hnz]; intros [= <-]; simpl.
  - lra.
  - apply Rdiv_lt_0_compat; lra.
Qed.

Lemma reweigh_returns (ranges : list R) (p : Particle) :
  (350 < length ranges)%nat ->
  exists p', reweigh ranges p = Ok p'.
Proof.
  intros Hlen. unfold reweigh, scan_particle.
  destruct (inner_loop_returns ranges range_0_360_10) with (st := mkLoop p [] [])
    as (st' & Hst' & _).
  { eapply Forall_impl; [|apply range_0_360_10_bound]. simpl. intros; lia. }
  rewrite Hst'. cbn [bind].
  destruct (Req_dec_T _ _); eexists; reflexivity.
Qed.

Lemma reweigh_all_mapped (ranges : list R) (p : Particle) (ds : list R) :
  Forall2 (fun deg d => bearing_error ranges p deg = Ok (Some d)) range_0_360_10 ds ->
  reweigh ranges p
  = Ok (set_w p (if Req_dec_T (sum (map (fun d => d ^ 5) ds)) 0
                 then 1 else 1 / sum (map (fun d => d ^ 5) ds))).
Proof.
  intros Hall. unfold reweigh, scan_particle.
  rewrite (inner_loop_all_mapped ranges _ ds); [|exact Hall].
  cbn [bind l_error l_particle app].
  destruct (Req_dec_T _ _); reflexivity.
Qed.

Lemma mapM_returns {A B : Type} (f : A -> result B) (xs : list A) :
  (forall a, In a xs -> exists b, f a = Ok b) ->
  exists ys, mapM f xs = Ok ys.
Proof.
  induction xs as [|a xs IH]; intros Hf.
  - exists []. reflexivity.
  - destruct (Hf a (or_introl eq_refl)) as (b & Hb).
    destruct IH as (ys & Hys). { intros a' Ha'. apply Hf. right. exact Ha'. }
    exists (b :: ys). cbn [mapM]. rewrite Hb. cbn [bind]. rewrite Hys. reflexivity.
Qed.

Lemma mapM_nth {A B : Type} (f : A -> result B) (xs : list A) (ys : list B)
      (i : nat) (a : A) :
  mapM f xs = Ok ys -> nth_error xs i = Some a ->
  exists b, f a = Ok b /\ nth_error ys i = Some b.
Proof.
  revert ys i. induction xs as [|a0 xs IH]; intros ys i Hm Hi.
  - destruct i; discriminate.
  - cbn [mapM] in Hm.
    destruct (f a0) as [b0|e] eqn:Hb0; cbn [bind] in Hm; [|discriminate].
    destruct (mapM f xs) as [bs|e] eqn:Hbs; cbn [bind] in Hm; [|discriminate].
    injection Hm as <-.
    destruct i as [|i]; simpl in Hi.
    + injection Hi as <-. exists b0. split; [exact Hb0|reflexivity].
    + destruct (IH bs i eq_refl Hi) as (b & Hb & Hnth).
      exists b. split; [exact Hb|exact Hnth].
Qed.

Lemma mapM_Forall {A B : Type} (f : A -> result B) (P : B -> Prop)
      (xs : list A) (ys : list B) :
  (forall a b, f a = Ok b -> P b) ->
  mapM f xs = Ok ys -> Forall P ys.
Proof.
  intros Hf. revert ys. induction xs as [|a xs IH]; intros ys Hm.
  - injection Hm as <-. constructor.
  - cbn [mapM] in Hm.
    destruct (f a) as [b|e] eqn:Hb; cbn [bind] in Hm; [|discriminate].
    destruct (mapM f xs) as [bs|e] eqn:Hbs; cbn [bind] in Hm; [|discriminate].
    injection Hm as <-. constructor; [eapply Hf, Hb|apply IH; reflexivity].
Qed.

(** The sensor update returns as soon as the scan has its readings
    [0..350], and then each particle carries what [reweigh] gives it. *)
Lemma update_particles_with_laser_returns (msg : LaserScan) (s : Node) :
  (350 < length (ranges msg))%nat ->
  exists cloud',
    mapM (reweigh (ranges msg)) (particle_cloud s) = Ok cloud'
    /\ update_particles_with_laser msg s = (Ok tt, set_particle_cloud cloud' s).
Proof.
  intros Hlen.
  destruct (mapM_returns (reweigh (ranges msg)) (particle_cloud s)) as (cloud' & Hc).
  { intros p _. apply reweigh_returns. exact Hlen. }
  exists cloud'. split; [exact Hc|].
  unfold update_particles_with_laser.
  apply for_each_particle_lift_ok. exact Hc.
Qed.

End SensorFacts.

Section LoopFacts.

Context `{World}.

Lemma for_particles_ext (body1 body2 : Particle -> M Particle) :
  (forall p s, body1 p s = body2 p s) ->
  forall todo done s,
    for_particles body1 done todo s = for_particles body2 done todo s.
Proof.
  intros Hext. induction todo as [|p todo IH]; intros done s.
  - reflexivity.
  - cbn [for_particles]. unfold mbind. rewrite Hext.
    destruct (body2 p s) as [[p'|e] s1]; [|reflexivity].
    unfold modify. apply IH.
Qed.

Lemma for_each_particle_ext (body1 body2 : Particle -> M Particle) (s : Node) :
  (forall p s, body1 p s = body2 p s) ->
  for_each_particle body1 s = for_each_particle body2 s.
Proof.
  intros Hext. unfold for_each_particle, mbind, gets.
  apply for_particles_ext. exact Hext.
Qed.

(** When the body raises at some particle the loop raises the same. *)
Lemma for_particles_lift_raise (f : Particle -> result Particle) (e : exn) :
  forall todo done s,
    mapM f todo = Raise e ->
    fst (for_particles (fun p => lift (f p)) done todo s) = Raise e.
Proof.
  induction todo as [|p todo IH]; intros done s Hm.
  - discriminate.
  - cbn [mapM] in Hm. cbn [for_particles]. unfold mbind, lift, modify.
    destruct (f p) as [p'|e'] eqn:Hp; cbn [bind] in Hm.
    + apply IH.
      destruct (mapM f todo) as [bs|e'']; cbn [bind] in Hm; [discriminate|].
      exact Hm.
    + injection Hm as ->. reflexivity.
Qed.

(** A run of such a loop that returns has mapped the body over the
    cloud. *)
Lemma for_each_particle_lift_inv (f : Particle -> result Particle) (s s' : Node) :
  for_each_particle (fun p => lift (f p)) s = (Ok tt, s') ->
  mapM f (particle_cloud s) = Ok (particle_cloud s')
  /\ s' = set_particle_cloud (particle_cloud s') s.
Proof.
  intros Hrun.
  destruct (mapM f (particle_cloud s)) as [cloud'|e] eqn:Hm.
  - rewrite (for_each_particle_lift_ok f cloud' s Hm) in Hrun.
    injection Hrun as <-. destruct s; simpl. split; reflexivity.
  - unfold for_each_particle, mbind, gets in Hrun.
    pose proof (for_particles_lift_raise f e (particle_cloud s) [] s Hm) as Hr.
    rewrite Hrun in Hr. discriminate.
Qed.

(** [normalize_particles] on a cloud whose weights do not sum to zero. *)
Lemma normalize_particles_ok (s : Node) :
  weights_sum (particle_cloud s) <> 0 ->
  normalize_particles s
  = (Ok tt,
     set_particle_cloud
       (map (fun p => set_w p (w p / weights_sum (particle_cloud s)))
            (particle_cloud s)) s).
Proof.
  intros Hsum. unfold normalize_particles. unfold mbind at 1. unfold gets at 1.
  remember (weights_sum (particle_cloud s)) as total eqn:Htotal. clear Htotal.
  rewrite (for_each_particle_ext _
             (fun p => lift (let* v := div (w p) total in Ok (set_w p v)))).
  - apply for_each_particle_lift_ok.
    induction (particle_cloud s) as [|p cloud IH]; [reflexivity|].
    cbn [mapM map]. unfold div at 1.
    destruct (Req_dec_T total 0) as [Hz|_]; [contradiction|].
    cbn [bind]. rewrite IH. reflexivity.
  - intros p s0. unfold mbind, lift, ret.
    destruct (div _ _); reflexivity.
Qed.

End LoopFacts.

(** C2: in the sensor update, a particle whose 36 bearing endpoints are all
    mapped (with distances [ds], one per bearing from 0 to 350 degrees in
    steps of 10) gets the weight [1] when the sum of the fifth powers of the
    distances is zero, and the inverse of that sum otherwise. *)
Theorem laser_weight_all_mapped `{World} (msg : LaserScan) (s : Node)
        (i : nat) (p : Particle) (ds : list R) :
  nth_error (particle_cloud s) i = Some p ->
  Forall2 (fun deg d => bearing_error (ranges msg) p deg = Ok (Some d))
          range_0_360_10 ds ->
  length range_0_360_10 = 36%nat
  /\ exists s',
      update_particles_with_laser msg s = (Ok tt, s')
      /\ (sum (map (fun d => d ^ 5) ds) = 0 ->
          nth_error (particle_cloud s') i = Some (set_w p 1))
      /\ (sum (map (fun d => d ^ 5) ds) <> 0 ->
          nth_error (particle_cloud s') i
          = Some (set_w p (1 / sum (map (fun d => d ^ 5) ds)))).
Proof.
  intros Hi Hall. split; [reflexivity|].
  assert (Hlen : (350 < length (ranges msg))%nat).
  { rewrite range_0_360_10_values in Hall.
    do 35 (inversion Hall as [|? ? ? ? _ Hall']; subst; clear Hall; rename Hall' into Hall).
    inversion Hall as [|? ? ? ? Hlast _]; subst.
    unfold bearing_error, index in Hlast.
    destruct (nth_error (ranges msg) 350) eqn:Hn; [|discriminate].
    apply nth_error_Some. congruence. }
  destruct (update_particles_with_laser_returns msg s Hlen) as (cloud' & Hm & Hrun).
  exists (set_particle_cloud cloud' s). split; [exact Hrun|].
  destruct (mapM_nth _ _ _ i p Hm Hi) as (p' & Hp' & Hnth).
  rewrite (reweigh_all_mapped _ _ ds Hall) in Hp'. injection Hp' as <-.
  simpl. split; intros Hsum; rewrite Hnth;
    destruct (Req_dec_T _ 0); try contradiction; reflexivity.
Qed.

(** C8: with a field whose distances are non-negative, the sensor update on
    a non-empty cloud returns whenever the scan has its readings up to 350,
    and every run that returns leaves every weight strictly positive (the
    [break] path included); the sum of the weights is then strictly
    positive and the normalisation that follows divides by it without
    raising. *)
Theorem laser_weights_positive `{World} (msg : LaserScan) (s : Node) :
  field_nonneg ->
  particle_cloud s <> [] ->
  ((350 < length (ranges msg))%nat ->
   exists s', update_particles_with_laser msg s = (Ok tt, s'))
  /\ forall s',
      update_particles_with_laser msg s = (Ok tt, s') ->
      Forall (fun p => 0 < w p) (particle_cloud s')
      /\ 0 < weights_sum (particle_cloud s')
      /\ exists s'', normalize_particles s' = (Ok tt, s'').
Proof.
  intros Hf Hne. split.
  - intros Hlen.
    destruct (update_particles_with_laser_returns msg s Hlen) as (cloud' & _ & Hrun).
    eexists. exact Hrun.
  - intros s' Hrun. unfold update_particles_with_laser in Hrun.
    apply for_each_particle_lift_inv in Hrun. destruct Hrun as (Hm & _).
    assert (Hpos : Forall (fun p => 0 < w p) (particle_cloud s')).
    { eapply mapM_Forall; [|exact Hm]. intros a b Hb. simpl.
      eapply reweigh_positive; [exact Hf|exact Hb]. }
    assert (Hsum : 0 < weights_sum (particle_cloud s')).
    { unfold weights_sum. apply sum_pos.
      - apply mapM_length in Hm. destruct (particle_cloud s'); [|discriminate].
        destruct (particle_cloud s); [congruence|discriminate].
      - apply Forall_map. exact Hpos. }
    split; [exact Hpos|]. split; [exact Hsum|].
    eexists. apply normalize_particles_ok. lra.
Qed.

Lemma laser_weight_all_mapped_witness :
  length range_0_360_10 = 36%nat
  /\ exists s',
      update_particles_with_laser (H := world_open_field) unit_scan
        (node_with_cloud [mkParticle 0 0 0 1]) = (Ok tt, s')
      /\ (sum (map (fun d => d ^ 5) (repeat (1 / 2) 36)) = 0 ->
          nth_error (particle_cloud s') 0 = Some (set_w (mkParticle 0 0 0 1) 1))
      /\ (sum (map (fun d => d ^ 5) (repeat (1 / 2) 36)) <> 0 ->
          nth_error (particle_cloud s') 0
          = Some (set_w (mkParticle 0 0 0 1)
                        (1 / sum (map (fun d => d ^ 5) (repeat (1 / 2) 36))))).
Proof.
  apply (laser_weight_all_mapped (H := world_open_field) unit_scan
           (node_with_cloud [mkParticle 0 0 0 1]) 0 (mkParticle 0 0 0 1)
           (repeat (1 / 2) 36)).
  - reflexivity.
  - repeat constructor.
Defined.

Lemma field_nonneg_open_field : field_nonneg (H := world_open_field).
Proof. intros a b d [= <-]. lra. Qed.

Lemma laser_weights_positive_witness :
  ((350 < length (ranges (H := world_open_field) unit_scan))%nat ->
   exists s', update_particles_with_laser (H := world_open_field) unit_scan
                (node_with_cloud [mkParticle 0 0 0 1]) = (Ok tt, s'))
  /\ forall s',
      update_particles_with_laser (H := world_open_field) unit_scan
        (node_with_cloud [mkParticle 0 0 0 1]) = (Ok tt, s') ->
      Forall (fun p => 0 < w p) (particle_cloud s')
      /\ 0 < weights_sum (particle_cloud s')
      /\ exists s'', normalize_particles s' = (Ok tt, s'').
Proof.
  apply (laser_weights_positive (H := world_open_field) unit_scan
           (node_with_cloud [mkParticle 0 0 0 1])).
  - exact field_nonneg_open_field.
  - discriminate.
Defined.

Section UnmappedFacts.

Context `{World}.

(** What [reweigh] leaves when bearing [deg0] is the first unmapped one:
    the [0] written before the [break] is overwritten from the errors
    collected so far. *)
Lemma reweigh_unmapped (ranges : list R) (p : Particle) (pre post : list nat)
      (deg0 : nat) (ds : list R) :
  range_0_360_10 = pre ++ deg0 :: post ->
  Forall2 (fun deg d => bearing_error ranges p deg = Ok (Some d)) pre ds ->
  bearing_error ranges p deg0 = Ok None ->
  scan_particle ranges p
  = Ok (mkLoop (set_w p 0) (map (fun d => d ^ 5) ds) (pre ++ [deg0]))
  /\ reweigh ranges p
     = Ok (set_w p (if Req_dec_T (sum (map (fun d => d ^ 5) ds)) 0
                    then 1 else 1 / sum (map (fun d => d ^ 5) ds))).
Proof.
  intros Hsplit Hpre Hnone.
  assert (Hscan : scan_particle ranges p
                  = Ok (mkLoop (set_w p 0) (map (fun d => d ^ 5) ds) (pre ++ [deg0]))).
  { unfold scan_particle. rewrite Hsplit.
    rewrite (inner_loop_unmapped ranges pre post deg0 ds); auto. }
  split; [exact Hscan|].
  unfold reweigh. rewrite Hscan. cbn [bind l_error l_particle].
  destruct (Req_dec_T _ 0); reflexivity.
Qed.

End UnmappedFacts.

(** C1 (the code departs from the claim): on a map with no mapped point, a
    particle of weight [1/2] looks up bearing [0] only, has its weight set
    to [0] by the [break] branch, and leaves the sensor update with weight
    [1], not [0]: the test on [sum(error)] after the loop runs on the empty
    error list. *)
Theorem unmapped_particle_gets_weight_one :
  scan_particle (H := world_unmapped) (ranges (H := world_unmapped) unit_scan)
    (mkParticle 0 0 0 (1 / 2))
  = Ok (mkLoop (mkParticle 0 0 0 0) [] [0%nat])
  /\ update_particles_with_laser (H := world_unmapped) unit_scan
       (node_with_cloud [mkParticle 0 0 0 (1 / 2)])
     = (Ok tt, node_with_cloud [mkParticle 0 0 0 1]).
Proof.
  split; [reflexivity|].
  unfold update_particles_with_laser.
  rewrite (for_each_particle_lift_ok _ [mkParticle 0 0 0 1]); [reflexivity|].
  cbn [mapM particle_cloud node_with_cloud].
  unfold reweigh.
  replace (scan_particle (ranges unit_scan) (mkParticle 0 0 0 (1 / 2)))
    with (Ok (mkLoop (mkParticle 0 0 0 0) [] [0%nat])) by reflexivity.
  cbn [bind l_error l_particle].
  destruct (Req_dec_T (sum []) 0) as [_|Hnz]; [reflexivity|].
  exfalso. apply Hnz. apply sum_nil.
Qed.

(** ** Normalisation *)

Lemma sum_map_div (l : list R) (c : R) :
  sum (map (fun v => v / c) l) = sum l / c.
Proof.
  induction l as [|a l IH]; simpl.
  - rewrite sum_nil. unfold Rdiv. lra.
  - rewrite !sum_cons, IH. unfold Rdiv. lra.
Qed.

Lemma weights_sum_normalized (cloud : list Particle) (c : R) :
  weights_sum (map (fun p => set_w p (w p / c)) cloud) = weights_sum cloud / c.
Proof.
  unfold weights_sum. rewrite map_map. simpl.
  rewrite <- sum_map_div, map_map. reflexivity.
Qed.

(** C6: on a cloud whose weights have a strictly positive sum,
    [normalize_particles] returns, it has divided every weight by that sum,
    the weights then sum to [1], and weights that were non-negative (the
    invariant of the data model) are still non-negative. *)
Theorem normalize_particles_sums_to_one `{World} (s : Node) :
  0 < weights_sum (particle_cloud s) ->
  exists s',
    normalize_particles s = (Ok tt, s')
    /\ particle_cloud s'
       = map (fun p => set_w p (w p / weights_sum (particle_cloud s)))
             (particle_cloud s)
    /\ weights_sum (particle_cloud s') = 1
    /\ (Forall (fun p => 0 <= w p) (particle_cloud s) ->
        Forall (fun p => 0 <= w p) (particle_cloud s')).
Proof.
  intros Hsum. eexists. split.
  - apply normalize_particles_ok. lra.
  - cbn [particle_cloud set_particle_cloud]. split; [reflexivity|]. split.
    + rewrite weights_sum_normalized. field. lra.
    + intros Hnn. apply Forall_map.
      eapply Forall_impl; [|exact Hnn]. cbn. intros p Hp.
      apply Rmult_le_pos; [exact Hp|].
      apply Rlt_le, Rinv_0_lt_compat. exact Hsum.
Qed.

Lemma weights_sum_pair (a b : Particle) : weights_sum [a; b] = w a + w b.
Proof. unfold weights_sum. cbn [map]. rewrite !sum_cons, sum_nil. lra. Qed.

Lemma normalize_particles_sums_to_one_witness :
  exists s',
    normalize_particles (H := world_open_field)
      (node_with_cloud (H := world_open_field) [mkParticle 0 0 0 1; mkParticle 1 0 0 3]) = (Ok tt, s')
    /\ particle_cloud s'
       = map (fun p => set_w p (w p / weights_sum
                  (particle_cloud (node_with_cloud (H := world_open_field) [mkParticle 0 0 0 1; mkParticle 1 0 0 3]))))
             (particle_cloud (node_with_cloud (H := world_open_field) [mkParticle 0 0 0 1; mkParticle 1 0 0 3]))
    /\ weights_sum (particle_cloud s') = 1
    /\ (Forall (fun p => 0 <= w p)
               (particle_cloud (node_with_cloud (H := world_open_field) [mkParticle 0 0 0 1; mkParticle 1 0 0 3])) ->
        Forall (fun p => 0 <= w p) (particle_cloud s')).
Proof.
  apply (normalize_particles_sums_to_one (H := world_open_field)
           (node_with_cloud (H := world_open_field) [mkParticle 0 0 0 1; mkParticle 1 0 0 3])).
  cbn [particle_cloud node_with_cloud]. rewrite weights_sum_pair. cbn [w]. lra.
Defined.

(** ** Pose estimate *)

Lemma fold_mean_step (cloud : list Particle) (acc : mean_acc) :
  let acc' := fold_left mean_step cloud acc in
  x (mean_particle acc')
  = x (mean_particle acc) + sum (map (fun p => w p * x p) cloud)
  /\ y (mean_particle acc')
     = y (mean_particle acc) + sum (map (fun p => w p * y p) cloud)
  /\ mean_particle_theta_x acc'
     = mean_particle_theta_x acc
       + sum (map (fun p => w p * sqrt (x p * x p + y p * y p) * cos (theta p)) cloud)
  /\ mean_particle_theta_y acc'
     = mean_particle_theta_y acc
       + sum (map (fun p => w p * sqrt (x p * x p + y p * y p) * sin (theta p)) cloud).
Proof.
  revert acc. induction cloud as [|p cloud IH]; intros acc; cbn [fold_left map].
  - rewrite sum_nil. repeat split; lra.
  - destruct (IH (mean_step acc p)) as (Hx & Hy & Htx & Hty).
    cbn zeta in *. rewrite Hx, Hy, Htx, Hty, !sum_cons.
    unfold mean_step. cbn [mean_particle mean_particle_theta_x mean_particle_theta_y x y].
    replace (Rsqr (y p) + Rsqr (x p)) with (x p * x p + y p * y p)
      by (unfold Rsqr; lra).
    repeat split; lra.
Qed.

(** The estimate in closed form. *)
Lemma mean_pose_formula (cloud : list Particle) :
  x (mean_pose cloud) = sum (map (fun p => w p * x p) cloud)
  /\ y (mean_pose cloud) = sum (map (fun p => w p * y p) cloud)
  /\ theta (mean_pose cloud)
     = arctan2
         (sum (map (fun p => w p * sqrt (x p * x p + y p * y p) * sin (theta p)) cloud))
         (sum (map (fun p => w p * sqrt (x p * x p + y p * y p) * cos (theta p)) cloud)).
Proof.
  destruct (fold_mean_step cloud (mkAcc (mkParticle 0 0 0 0) 0 0)) as (Hx & Hy & Htx & Hty).
  cbn zeta in *. unfold mean_pose. cbn [x y theta].
  rewrite Hx, Hy, Htx, Hty. cbn [mean_particle mean_particle_theta_x mean_particle_theta_y x y].
  repeat split; try lra. f_equal; lra.
Qed.

Lemma arctan2_origin : arctan2 0 0 = 0.
Proof.
  unfold arctan2.
  destruct (Rlt_dec 0 0) as [Hlt|_]; [lra|]. reflexivity.
Qed.

Lemma normalize_identity (cloud : list Particle) :
  map (fun p => set_w p (w p / 1)) cloud = cloud.
Proof.
  induction cloud as [|p cloud IH]; [reflexivity|].
  cbn [map]. rewrite IH. f_equal. destruct p as [px py pt pw]. unfold set_w. cbn.
  f_equal. field.
Qed.

(** [update_robot_pose] on a cloud whose weights sum to [1]: the
    normalisation changes nothing and the pose is read off [mean_pose]. *)
Lemma update_robot_pose_normalized `{World} (s : Node) :
  weights_sum (particle_cloud s) = 1 ->
  update_robot_pose s
  = (Ok tt, set_robot_pose (Some (as_pose (mean_pose (particle_cloud s)))) s).
Proof.
  intros Hsum. unfold update_robot_pose. unfold mbind at 1.
  rewrite normalize_particles_ok by lra.
  rewrite Hsum, normalize_identity, set_particle_cloud_same.
  reflexivity.
Qed.

(** The scenario of two opposite headings on binary64, for any numpy whose
    functions have the listed values: the weights are already normalised,
    the cosine terms cancel to [0.0], the sine terms leave half of
    [np.sin(math.pi)], and [np.arctan2] of a positive number and [0.0] is
    [math.pi / 2]. *)
Lemma opposite_headings_estimate `{L : Binary64.Libm} :
  Binary64.np_cos 0%float = 1%float ->
  Binary64.np_sin 0%float = 0%float ->
  Binary64.np_cos pi_double = (-1)%float ->
  Binary64.np_sin pi_double = sin_pi_double ->
  (forall b, (0 <? b)%float = true -> Binary64.np_arctan2 b 0%float = half_pi_double) ->
  Binary64.update_robot_pose opposite_headings
  = Ok (opposite_headings, Binary64.mkParticle 1 0 half_pi_double 0).
Proof.
  destruct L as [c sn at2]. cbn [Binary64.np_cos Binary64.np_sin Binary64.np_arctan2].
  unfold pi_double, sin_pi_double. intros Hc0 Hs0 Hcpi Hspi Hat2.
  unfold Binary64.update_robot_pose, opposite_headings, pi_double.
  change (Binary64.normalize_particles
            [Binary64.mkParticle 1 0 0 0.5;
             Binary64.mkParticle 1 0 0x1.921fb54442d18p+1 0.5])
    with (Ok [Binary64.mkParticle 1 0 0 0.5;
              Binary64.mkParticle 1 0 0x1.921fb54442d18p+1 0.5]).
  cbn [bind fold_left Binary64.mean_step Binary64.mean_particle
       Binary64.mean_particle_theta_x Binary64.mean_particle_theta_y
       Binary64.x Binary64.y Binary64.theta Binary64.w
       Binary64.np_cos Binary64.np_sin Binary64.np_arctan2].
  rewrite Hc0, Hs0, Hcpi, Hspi.
  rewrite Hat2 by reflexivity.
  reflexivity.
Qed.

(** C7 (amended): for a cloud whose weights sum to [1], [update_robot_pose]
    stores the pose of a particle [m] with [x m] and [y m] the weighted
    means and [theta m] the [arctan2] of the sums weighted by [w] and by the
    distance to the origin; for two particles of weight [0.5] at [(1, 0)]
    with headings [0] and [math.pi], on binary64, the estimate is at
    [(1, 0)] and its heading is [math.pi / 2]. *)
Theorem pose_estimate_weighted_mean `{World} `{L : Binary64.Libm} (s : Node) :
  weights_sum (particle_cloud s) = 1 ->
  Binary64.np_cos 0%float = 1%float ->
  Binary64.np_sin 0%float = 0%float ->
  Binary64.np_cos pi_double = (-1)%float ->
  Binary64.np_sin pi_double = sin_pi_double ->
  (forall b, (0 <? b)%float = true -> Binary64.np_arctan2 b 0%float = half_pi_double) ->
  (exists m,
      update_robot_pose s = (Ok tt, set_robot_pose (Some (as_pose m)) s)
      /\ x m = sum (map (fun p => w p * x p) (particle_cloud s))
      /\ y m = sum (map (fun p => w p * y p) (particle_cloud s))
      /\ theta m
         = arctan2
             (sum (map (fun p => w p * sqrt (x p * x p + y p * y p) * sin (theta p))
                       (particle_cloud s)))
             (sum (map (fun p => w p * sqrt (x p * x p + y p * y p) * cos (theta p))
                       (particle_cloud s))))
  /\ Binary64.update_robot_pose opposite_headings
     = Ok (opposite_headings, Binary64.mkParticle 1 0 half_pi_double 0).
Proof.
  intros Hsum Hc0 Hs0 Hcpi Hspi Hat2. split.
  - exists (mean_pose (particle_cloud s)). split.
    + apply update_robot_pose_normalized. exact Hsum.
    + apply mean_pose_formula.
  - apply opposite_headings_estimate; assumption.
Qed.

Lemma pose_estimate_weighted_mean_witness :
  (exists m,
      update_robot_pose (H := world_open_field)
        (node_with_cloud [mkParticle 1 0 0 (1 / 4); mkParticle 0 1 0 (3 / 4)])
      = (Ok tt,
         set_robot_pose (Some (as_pose m))
           (node_with_cloud [mkParticle 1 0 0 (1 / 4); mkParticle 0 1 0 (3 / 4)]))
      /\ x m = sum [1 / 4 * 1; 3 / 4 * 0]
      /\ y m = sum [1 / 4 * 0; 3 / 4 * 1])
  /\ Binary64.update_robot_pose (L := libm_at_zero_and_pi) opposite_headings
     = Ok (opposite_headings, Binary64.mkParticle 1 0 half_pi_double 0).
Proof.
  destruct (pose_estimate_weighted_mean (H := world_open_field)
              (L := libm_at_zero_and_pi)
              (node_with_cloud [mkParticle 1 0 0 (1 / 4); mkParticle 0 1 0 (3 / 4)]))
    as [(m & Hrun & Hx & Hy & _) Hscenario].
  - cbn [particle_cloud node_with_cloud]. rewrite weights_sum_pair. cbn [w]. lra.
  - reflexivity.
  - reflexivity.
  - reflexivity.
  - reflexivity.
  - intros b Hb. cbn [Binary64.np_arctan2 libm_at_zero_and_pi].
    rewrite Hb. reflexivity.
  - split; [|exact Hscenario].
    exists m. split; [exact Hrun|]. split; [exact Hx|exact Hy].
Defined.

(** With numpy's values, the heading that [update_robot_pose] estimates for
    the two opposite headings is [math.pi / 2]. *)
Lemma opposite_headings_give_half_pi :
  Binary64.update_robot_pose (L := libm_at_zero_and_pi) opposite_headings
  = Ok (opposite_headings, Binary64.mkParticle 1 0 half_pi_double 0)
  /\ half_pi_double = (pi_double / 2)%float.
Proof. vm_compute. split; reflexivity. Qed.

(** ** Motion update *)

(** C9: when no odometry pose is recorded yet, [update_particles_with_odom]
    records the new one and returns: the cloud is unchanged and no random
    number is drawn. *)
Theorem first_odom_update_only_records `{World} (s : Node) (new_odom : R * R * R) :
  current_odom_xy_theta s = None ->
  odom_pose s = Some new_odom ->
  exists s',
    update_particles_with_odom s = (Ok tt, s')
    /\ s' = set_current_odom_xy_theta (Some new_odom) s
    /\ current_odom_xy_theta s' = Some new_odom
    /\ particle_cloud s' = particle_cloud s
    /\ drawn s' = drawn s.
Proof.
  intros Hcur Hodom. eexists. split.
  - unfold update_particles_with_odom, mbind, attr, gets, modify.
    rewrite Hodom, Hcur. reflexivity.
  - repeat split.
Qed.

Lemma first_odom_update_only_records_witness :
  exists s',
    update_particles_with_odom (H := world_open_field)
      (mkNode true [mkParticle 0 0 0 1] None (Some (1, 2, 3)) None None None 0 [] [] [])
    = (Ok tt, s')
    /\ s' = set_current_odom_xy_theta (Some (1, 2, 3))
              (mkNode true [mkParticle 0 0 0 1] None (Some (1, 2, 3)) None None None 0 [] [] [])
    /\ current_odom_xy_theta s' = Some (1, 2, 3)
    /\ particle_cloud s' = [mkParticle 0 0 0 1]
    /\ drawn s' = 0%nat.
Proof.
  apply (first_odom_update_only_records (H := world_open_field)
           (mkNode true [mkParticle 0 0 0 1] None (Some (1, 2, 3)) None None None 0 [] [] [])
           (1, 2, 3)); reflexivity.
Defined.

Section MotionFacts.

Context `{World}.

(** One pass of the loop body draws four numbers, one after the other. *)
Lemma move_particle_advance (delta old : R * R * R) (p : Particle) (s : Node) :
  move_particle delta old p s
  = (Ok (advance delta old
           (noise (random_stream (drawn s)))
           (noise (random_stream (drawn s + 1)))
           (noise (random_stream (drawn s + 2)))
           (noise (random_stream (drawn s + 3))) p),
     set_drawn (drawn s + 4) s).
Proof.
  destruct delta as [[d0 d1] d2]. destruct old as [[o0 o1] o2].
  unfold move_particle, advance, mbind, random_sample, ret.
  cbn [drawn set_drawn].
  replace (drawn s + 1)%nat with (S (drawn s)) by lia.
  replace (drawn s + 2)%nat with (S (S (drawn s))) by lia.
  replace (drawn s + 3)%nat with (S (S (S (drawn s)))) by lia.
  replace (drawn s + 4)%nat with (S (S (S (S (drawn s))))) by lia.
  destruct s; reflexivity.
Qed.

Lemma for_particles_move (delta old : R * R * R) :
  forall todo done s,
    particle_cloud s = done ++ todo ->
    for_particles (move_particle delta old) done todo s
    = (Ok tt,
       set_drawn (drawn s + 4 * length todo)
         (set_particle_cloud (done ++ advance_all delta old (drawn s) todo) s)).
Proof.
  induction todo as [|p todo IH]; intros done s Hs.
  - cbn [for_particles advance_all length]. unfold ret.
    rewrite <- Hs, set_particle_cloud_same.
    replace (drawn s + 4 * 0)%nat with (drawn s) by lia.
    destruct s; reflexivity.
  - cbn [for_particles advance_all length]. unfold mbind at 1.
    rewrite move_particle_advance. unfold mbind at 1. unfold modify at 1.
    rewrite IH.
    + cbn [drawn set_drawn set_particle_cloud particle_cloud].
      rewrite <- app_assoc. cbn [app].
      replace (drawn s + 4 + 4 * length todo)%nat
        with (drawn s + 4 * S (length todo))%nat by lia.
      destruct s; reflexivity.
    + cbn [drawn set_drawn set_particle_cloud particle_cloud].
      rewrite <- app_assoc. reflexivity.
Qed.



Lemma advance_all_length (delta old : R * R * R) (cloud : list Particle) (k : nat) :
  length (advance_all delta old k cloud) = length cloud.
Proof.
  revert k. induction cloud as [|p cloud IH]; intros k; cbn [advance_all length].
  - reflexivity.
  - rewrite IH. reflexivity.
Qed.

(** The motion update when a previous odometry pose is recorded. *)
Lemma update_particles_with_odom_moves (s : Node) (new_odom old_odom : R * R * R) :
  odom_pose s = Some new_odom ->
  current_odom_xy_theta s = Some old_odom ->
  let delta := (fst (fst new_odom) - fst (fst old_odom),
                snd (fst new_odom) - snd (fst old_odom),
                snd new_odom - snd old_odom) in
  update_particles_with_odom s
  = (Ok tt,
     set_drawn (drawn s + 4 * length (particle_cloud s))
       (set_particle_cloud
          (advance_all delta old_odom (drawn s) (particle_cloud s))
          (set_current_odom_xy_theta (Some new_odom) s))).
Proof.
  intros Hodom Hcur. cbn zeta.
  destruct new_odom as [[n0 n1] n2]. destruct old_odom as [[o0 o1] o2].
  unfold update_particles_with_odom. unfold mbind at 1. unfold attr. rewrite Hodom.
  unfold mbind at 1. unfold gets at 1. rewrite Hcur.
  unfold mbind at 1. unfold modify at 1.
  unfold for_each_particle. unfold mbind at 1. unfold gets at 1.
  rewrite for_particles_move by reflexivity.
  reflexivity.
Qed.

End MotionFacts.







(** ** The update gate *)

Lemma gtb_true (a b : R) : gtb a b = true <-> a > b.
Proof.
  unfold gtb. destruct (Rgt_dec a b) as [Hgt|Hngt]; split; intros Hh;
    try reflexivity; try assumption; try discriminate. contradiction.
Qed.

Lemma moved_spec `{World} (new0 new1 new2 cur0 cur1 cur2 : R) :
  moved (new0, new1, new2) (cur0, cur1, cur2) = true
  <-> (Rabs (new0 - cur0) > 1 / 10 \/ Rabs (new1 - cur1) > 1 / 10
       \/ Rabs (new2 - cur2) > PI / 12).
Proof.
  unfold moved, d_thresh, a_thresh.
  rewrite !orb_true_iff, !gtb_true. tauto.
Qed.

(** C3: with the node initialised, both transforms available, a non-empty
    cloud and an odometry pose recorded, [scan_received] runs the update
    cycle (then publishes) when [|dx| > 0.1] or [|dy| > 0.1] or
    [|dtheta| > PI/12], strictly, and otherwise only publishes the cloud;
    a delta of [(0.05, 0, 0)] runs no cycle, a delta of [(0.15, 0, 0)]
    does. *)
Theorem update_gate `{World} (msg : LaserScan) (s : Node) (p : Particle)
        (rest : list Particle) (cur0 cur1 cur2 new0 new1 new2 : R) :
  initialized s = true ->
  can_transform_laser msg = true ->
  can_transform_odom msg = true ->
  particle_cloud s = p :: rest ->
  current_odom_xy_theta s = Some (cur0, cur1, cur2) ->
  scan_odom_xy_theta msg = (new0, new1, new2) ->
  let moved_enough :=
    Rabs (new0 - cur0) > 1 / 10 \/ Rabs (new1 - cur1) > 1 / 10
    \/ Rabs (new2 - cur2) > PI / 12 in
  let s1 := set_odom_pose (Some (new0, new1, new2)) s in
  (moved_enough ->
   scan_received msg s = (update_cycle msg ;; publish_particles) s1)
  /\ (~ moved_enough ->
      scan_received msg s = (Ok tt, publish (map as_pose (particle_cloud s)) s1))
  /\ (new0 - cur0 = 5 / 100 -> new1 - cur1 = 0 -> new2 - cur2 = 0 ->
      scan_received msg s = (Ok tt, publish (map as_pose (particle_cloud s)) s1))
  /\ (new0 - cur0 = 15 / 100 -> new1 - cur1 = 0 -> new2 - cur2 = 0 ->
      scan_received msg s = (update_cycle msg ;; publish_particles) s1).
Proof.
  intros Hinit Hlaser Hodom Hcloud Hcur Hnew. cbn zeta.
  assert (Hrun : scan_received msg s
                 = ((if moved (new0, new1, new2) (cur0, cur1, cur2)
                     then update_cycle msg else ret tt) ;; publish_particles)
                     (set_odom_pose (Some (new0, new1, new2)) s)).
  { unfold scan_received. unfold mbind at 1. unfold gets at 1.
    rewrite Hinit, Hlaser, Hodom. cbn [negb].
    unfold mbind at 1. unfold modify at 1.
    unfold mbind at 1. unfold gets at 1.
    cbn [particle_cloud set_odom_pose]. rewrite Hcloud, Hnew.
    unfold mbind at 1. unfold mbind at 1. unfold gets at 1.
    cbn [current_odom_xy_theta set_odom_pose]. rewrite Hcur. reflexivity. }
  assert (Hyes : (Rabs (new0 - cur0) > 1 / 10 \/ Rabs (new1 - cur1) > 1 / 10
                  \/ Rabs (new2 - cur2) > PI / 12) ->
                 scan_received msg s
                 = (update_cycle msg ;; publish_particles)
                     (set_odom_pose (Some (new0, new1, new2)) s)).
  { intros Hm. apply moved_spec in Hm. rewrite Hrun, Hm. reflexivity. }
  assert (Hno : ~ (Rabs (new0 - cur0) > 1 / 10 \/ Rabs (new1 - cur1) > 1 / 10
                   \/ Rabs (new2 - cur2) > PI / 12) ->
                scan_received msg s
                = (Ok tt, publish (map as_pose (particle_cloud s))
                            (set_odom_pose (Some (new0, new1, new2)) s))).
  { intros Hm. rewrite Hrun.
    destruct (moved (new0, new1, new2) (cur0, cur1, cur2)) eqn:Hb.
    - exfalso. apply Hm. apply moved_spec. exact Hb.
    - reflexivity. }
  split; [exact Hyes|]. split; [exact Hno|]. split.
  - intros H0 H1 H2. apply Hno. rewrite H0, H1, H2.
    rewrite Rabs_R0, Rabs_pos_eq by lra.
    pose proof PI_RGT_0. intros [Hc|[Hc|Hc]]; lra.
  - intros H0 H1 H2. apply Hyes. left. rewrite H0.
    rewrite Rabs_pos_eq by lra. lra.
Qed.

Lemma update_gate_witness :
  scan_received (H := world_open_field) unit_scan node_unit_step
  = (Ok tt,
     publish (map as_pose (particle_cloud (H := world_open_field) node_unit_step))
       (set_odom_pose (Some (0, 0, 0)) node_unit_step)).
Proof.
  destruct (update_gate (H := world_open_field) unit_scan node_unit_step
              (mkParticle 0 0 (PI / 4) 1) [] 0 0 0 0 0 0
              eq_refl eq_refl eq_refl eq_refl eq_refl eq_refl)
    as (_ & Hno & _).
  apply Hno. replace (0 - 0) with 0 by lra. rewrite Rabs_R0.
  pose proof PI_RGT_0. intros [Hc|[Hc|Hc]]; lra.
Defined.

(** ** The transform broadcast *)

Section FrameFacts.

Context `{World}.

Lemma keeps_ret {A : Type} (a : A) : keeps_tf (ret a).
Proof. intros s. reflexivity. Qed.

Lemma keeps_raise {A : Type} (e : exn) : keeps_tf (raise (A := A) e).
Proof. intros s. reflexivity. Qed.

Lemma keeps_gets {A : Type} (f : Node -> A) : keeps_tf (gets f).
Proof. intros s. reflexivity. Qed.

Lemma keeps_lift {A : Type} (r : result A) : keeps_tf (lift r).
Proof. intros s. reflexivity. Qed.

Lemma keeps_attr {A : Type} (f : Node -> option A) : keeps_tf (attr f).
Proof. intros s. unfold attr. destruct (f s); reflexivity. Qed.

Lemma keeps_modify (f : Node -> Node) :
  (forall s, tf_view (f s) = tf_view s) -> keeps_tf (modify f).
Proof. intros Hf s. apply Hf. Qed.

Lemma keeps_bind {A B : Type} (m : M A) (k : A -> M B) :
  keeps_tf m -> (forall a, keeps_tf (k a)) -> keeps_tf (mbind m k).
Proof.
  intros Hm Hk s. unfold mbind. specialize (Hm s).
  destruct (m s) as [[a|e] s1]; cbn [snd] in *.
  - rewrite Hk. exact Hm.
  - exact Hm.
Qed.

Lemma keeps_random_sample : keeps_tf random_sample.
Proof. intros s. reflexivity. Qed.

Lemma keeps_random_samples (n : nat) : keeps_tf (random_samples n).
Proof.
  induction n as [|n IH]; cbn [random_samples].
  - apply keeps_ret.
  - apply keeps_bind; [apply keeps_random_sample|]. intros u.
    apply keeps_bind; [exact IH|]. intros us. apply keeps_ret.
Qed.

Lemma keeps_for_particles (body : Particle -> M Particle) :
  (forall p, keeps_tf (body p)) ->
  forall todo done, keeps_tf (for_particles body done todo).
Proof.
  intros Hbody. induction todo as [|p todo IH]; intros done; cbn [for_particles].
  - apply keeps_ret.
  - apply keeps_bind; [apply Hbody|]. intros p'.
    apply keeps_bind; [apply keeps_modify; reflexivity|]. intros _. apply IH.
Qed.

Lemma keeps_for_each_particle (body : Particle -> M Particle) :
  (forall p, keeps_tf (body p)) -> keeps_tf (for_each_particle body).
Proof.
  intros Hbody. unfold for_each_particle.
  apply keeps_bind; [apply keeps_gets|]. intros cloud.
  apply keeps_for_particles. exact Hbody.
Qed.

Lemma keeps_repeatM (n : nat) (body : M unit) :
  keeps_tf body -> keeps_tf (repeatM n body).
Proof.
  intros Hbody. induction n as [|n IH]; cbn [repeatM].
  - apply keeps_ret.
  - apply keeps_bind; [exact Hbody|]. intros _. exact IH.
Qed.

Lemma keeps_normalize_particles : keeps_tf normalize_particles.
Proof.
  unfold normalize_particles.
  apply keeps_bind; [apply keeps_gets|]. intros cloud.
  apply keeps_for_each_particle. intros p.
  apply keeps_bind; [apply keeps_lift|]. intros v. apply keeps_ret.
Qed.

Lemma keeps_update_robot_pose : keeps_tf update_robot_pose.
Proof.
  unfold update_robot_pose.
  apply keeps_bind; [apply keeps_normalize_particles|]. intros _.
  apply keeps_bind; [apply keeps_gets|]. intros cloud.
  apply keeps_modify. reflexivity.
Qed.

Lemma keeps_move_particle (delta old : R * R * R) (p : Particle) :
  keeps_tf (move_particle delta old p).
Proof.
  intros s. rewrite move_particle_advance. reflexivity.
Qed.

Lemma keeps_update_particles_with_odom : keeps_tf update_particles_with_odom.
Proof.
  unfold update_particles_with_odom.
  apply keeps_bind; [apply keeps_attr|]. intros [[n0 n1] n2].
  apply keeps_bind; [apply keeps_gets|]. intros [[[o0 o1] o2]|].
  - apply keeps_bind; [apply keeps_modify; reflexivity|]. intros _.
    apply keeps_for_each_particle. intros p. apply keeps_move_particle.
  - apply keeps_modify. reflexivity.
Qed.

Lemma keeps_update_particles_with_laser (msg : LaserScan) :
  keeps_tf (update_particles_with_laser msg).
Proof.
  unfold update_particles_with_laser.
  apply keeps_for_each_particle. intros p. apply keeps_lift.
Qed.

Lemma keeps_draw_random_sample (choices : list Particle) (probabilities : list R)
      (n : nat) :
  keeps_tf (draw_random_sample choices probabilities n).
Proof.
  unfold draw_random_sample.
  apply keeps_bind; [apply keeps_random_samples|]. intros us.
  apply keeps_bind; [apply keeps_lift|]. intros ds.
  apply keeps_bind; [apply keeps_lift|]. intros inds.
  apply keeps_lift.
Qed.

Lemma keeps_resample_particles : keeps_tf resample_particles.
Proof.
  unfold resample_particles.
  apply keeps_bind; [apply keeps_normalize_particles|]. intros _.
  apply keeps_bind; [apply keeps_gets|]. intros cloud.
  apply keeps_bind; [apply keeps_draw_random_sample|]. intros samples.
  apply keeps_modify. reflexivity.
Qed.

Lemma keeps_initialize_particle_cloud (xy_theta : option (R * R * R)) :
  keeps_tf (initialize_particle_cloud xy_theta).
Proof.
  unfold initialize_particle_cloud.
  apply keeps_bind.
  { destruct xy_theta; [apply keeps_ret|apply keeps_attr]. }
  intros [[xy0 xy1] xy2].
  apply keeps_bind; [apply keeps_modify; reflexivity|]. intros _.
  apply keeps_bind.
  { apply keeps_repeatM.
    apply keeps_bind; [apply keeps_random_sample|]. intros u1.
    apply keeps_bind; [apply keeps_random_sample|]. intros u2.
    apply keeps_bind; [apply keeps_random_sample|]. intros u3.
    apply keeps_bind; [apply keeps_gets|]. intros cloud.
    apply keeps_modify. reflexivity. }
  intros _.
  apply keeps_bind; [apply keeps_normalize_particles|]. intros _.
  apply keeps_update_robot_pose.
Qed.

Lemma keeps_publish_particles : keeps_tf publish_particles.
Proof.
  unfold publish_particles.
  apply keeps_bind; [apply keeps_gets|]. intros cloud.
  apply keeps_modify. reflexivity.
Qed.

(** *** The invariant *)

Lemma tf_inv_view (s s' : Node) : tf_view s' = tf_view s -> tf_inv s -> tf_inv s'.
Proof.
  unfold tf_view, tf_inv. intros [= Ht Hr Hb Hc]. rewrite Ht, Hr, Hb, Hc. tauto.
Qed.

Lemma keeps_preserves {A : Type} (m : M A) : keeps_tf m -> preserves m.
Proof. intros Hm s Hs. eapply tf_inv_view; [apply Hm|exact Hs]. Qed.

Lemma preserves_bind {A B : Type} (m : M A) (k : A -> M B) :
  preserves m -> (forall a, preserves (k a)) -> preserves (mbind m k).
Proof.
  intros Hm Hk s Hs. unfold mbind. specialize (Hm s Hs).
  destruct (m s) as [[a|e] s1]; cbn [snd] in *.
  - apply Hk. exact Hm.
  - exact Hm.
Qed.

(** [fix_map_to_odom_transform] either raises and writes nothing, or
    assigns both attributes at once. *)
Lemma fix_map_to_odom_transform_cases (to_odom_frame : Pose -> result Pose) (s : Node) :
  (exists e, fix_map_to_odom_transform to_odom_frame s = (Raise e, s))
  \/ (exists tr, fix_map_to_odom_transform to_odom_frame s
                 = (Ok tt, set_translation_rotation tr s)).
Proof.
  unfold fix_map_to_odom_transform, mbind, attr, lift, modify.
  destruct (robot_pose s) as [rp|]; [|left; eexists; reflexivity].
  destruct (convert_pose_inverse_transform rp) as [t r].
  destruct (to_odom_frame _) as [q|e].
  - right. eexists. reflexivity.
  - left. eexists. reflexivity.
Qed.

Lemma preserves_fix (to_odom_frame : Pose -> result Pose) :
  preserves (fix_map_to_odom_transform to_odom_frame).
Proof.
  intros s [Hsent Hattr].
  destruct (fix_map_to_odom_transform_cases to_odom_frame s)
    as [(e & ->)|([t r] & ->)]; cbn [snd].
  - split; assumption.
  - unfold tf_inv.
    cbn [translation rotation tf_broadcaster computed set_translation_rotation fst snd].
    split.
    + intros tr Htr. apply in_or_app. left. apply Hsent. exact Htr.
    + eexists. reflexivity.
Qed.

Lemma preserves_broadcast : preserves broadcast_last_transform.
Proof.
  intros s [Hsent Hattr].
  unfold broadcast_last_transform, mbind, gets, modify, ret.
  destruct (translation s) as [t|] eqn:Ht; destruct (rotation s) as [r|] eqn:Hr;
    cbn [snd]; try (split; [exact Hsent|rewrite Ht, Hr; exact Hattr]).
  unfold tf_inv. cbn [translation rotation tf_broadcaster computed sendTransform].
  rewrite Ht, Hr. split; [|exact Hattr].
  intros tr Htr. apply in_app_or in Htr. destruct Htr as [Htr|[<-|[]]].
  + apply Hsent. exact Htr.
  + destruct Hattr as (before & ->). apply in_or_app. right. left. reflexivity.
Qed.

Lemma preserves_update_cycle (msg : LaserScan) : preserves (update_cycle msg).
Proof.
  unfold update_cycle.
  apply preserves_bind; [apply keeps_preserves, keeps_update_particles_with_odom|].
  intros _.
  apply preserves_bind; [apply keeps_preserves, keeps_update_particles_with_laser|].
  intros _.
  apply preserves_bind; [apply keeps_preserves, keeps_update_robot_pose|].
  intros _.
  apply preserves_bind; [apply keeps_preserves, keeps_resample_particles|].
  intros _. apply preserves_fix.
Qed.

Lemma preserves_scan_received (msg : LaserScan) : preserves (scan_received msg).
Proof.
  unfold scan_received.
  apply preserves_bind; [apply keeps_preserves, keeps_gets|]. intros ready.
  destruct (negb ready); [apply keeps_preserves, keeps_ret|].
  destruct (negb (can_transform_laser msg)); [apply keeps_preserves, keeps_ret|].
  destruct (negb (can_transform_odom msg)); [apply keeps_preserves, keeps_ret|].
  apply preserves_bind; [apply keeps_preserves, keeps_modify; reflexivity|].
  intros _.
  apply preserves_bind; [apply keeps_preserves, keeps_gets|]. intros cloud.
  apply preserves_bind; [|intros _; apply keeps_preserves, keeps_publish_particles].
  destruct cloud as [|p rest].
  - apply preserves_bind;
      [apply keeps_preserves, keeps_initialize_particle_cloud|]. intros _.
    apply preserves_bind; [apply keeps_preserves, keeps_modify; reflexivity|].
    intros _. apply preserves_fix.
  - apply preserves_bind; [apply keeps_preserves, keeps_gets|]. intros [cur|].
    + destruct (moved _ cur);
        [apply preserves_update_cycle|apply keeps_preserves, keeps_ret].
    + apply keeps_preserves, keeps_raise.
Qed.

Lemma preserves_update_initial_pose (msg : InitialPose) :
  preserves (update_initial_pose msg).
Proof.
  unfold update_initial_pose.
  apply preserves_bind; [apply keeps_preserves, keeps_initialize_particle_cloud|].
  intros _. apply preserves_fix.
Qed.

Lemma preserves_callback (e : event) : preserves (callback e).
Proof.
  destruct e as [|msg|msg|]; cbn [callback].
  - apply keeps_preserves, keeps_modify. reflexivity.
  - apply preserves_scan_received.
  - apply preserves_update_initial_pose.
  - apply preserves_broadcast.
Qed.

Lemma tf_inv_node0 : tf_inv node0.
Proof. split; [intros tr []|reflexivity]. Qed.

Lemma tf_inv_run (es : list event) : forall s, tf_inv s -> tf_inv (run es s).
Proof.
  unfold run. induction es as [|e es IH]; intros s Hs; cbn [fold_left].
  - exact Hs.
  - apply IH. unfold handle. apply preserves_callback. exact Hs.
Qed.

End FrameFacts.

(** C10: after any sequence of callbacks and ticks from the start of the
    node, [broadcast_last_transform] never raises; as long as
    [fix_map_to_odom_transform] has assigned no offset it returns with the
    node unchanged, nothing sent; what it sends otherwise is the offset
    last assigned; and every transform ever sent had been assigned by
    [fix_map_to_odom_transform]. *)
Theorem broadcast_only_computed_transforms `{World} (es : list event) :
  fst (broadcast_last_transform (run es node0)) = Ok tt
  /\ (computed (run es node0) = [] ->
      broadcast_last_transform (run es node0) = (Ok tt, run es node0)
      /\ tf_broadcaster (run es node0) = [])
  /\ (forall tr,
         In tr (tf_broadcaster (snd (broadcast_last_transform (run es node0)))) ->
         In tr (computed (run es node0)))
  /\ (forall before tr,
         computed (run es node0) = before ++ [tr] ->
         tf_broadcaster (snd (broadcast_last_transform (run es node0)))
         = tf_broadcaster (run es node0) ++ [tr]).
Proof.
  pose proof (tf_inv_run es node0 tf_inv_node0) as Hinv.
  pose proof (preserves_broadcast _ Hinv) as Hafter.
  destruct Hinv as [Hsent Hattr].
  split; [|split; [|split]].
  - unfold broadcast_last_transform, mbind, gets, modify, ret.
    destruct (translation _), (rotation _); reflexivity.
  - intros Hnone. split.
    + unfold broadcast_last_transform, mbind, gets, modify, ret.
      destruct (translation (run es node0)) as [t|];
        destruct (rotation (run es node0)) as [r|]; try reflexivity.
      destruct Hattr as (before & Hc). rewrite Hnone in Hc.
      destruct before; discriminate.
    + destruct (tf_broadcaster (run es node0)) as [|tr l]; [reflexivity|].
      exfalso. specialize (Hsent tr (or_introl eq_refl)).
      rewrite Hnone in Hsent. exact Hsent.
  - intros tr Htr. destruct Hafter as [Hsent' _].
    specialize (Hsent' tr Htr).
    revert Hsent'. unfold broadcast_last_transform, mbind, gets, modify, ret.
    destruct (translation _), (rotation _); cbn [snd computed sendTransform]; auto.
  - intros before tr Hc.
    unfold broadcast_last_transform, mbind, gets, modify, ret.
    destruct (translation (run es node0)) as [t|];
      destruct (rotation (run es node0)) as [r|]; try contradiction.
    + destruct Hattr as (before' & Hc'). rewrite Hc in Hc'.
      apply app_inj_tail in Hc'. destruct Hc' as [_ ->]. reflexivity.
    + rewrite Hc in Hattr. destruct before; discriminate.
Qed.

(** ** Resampling *)

Lemma set_w_div_one (p : Particle) : set_w p (w p / 1) = p.
Proof. destruct p as [px py pt pw]. unfold set_w. cbn. f_equal. field. Qed.

Lemma store_same (h : Refs.heap) (a : Refs.address) (p : Particle) :
  nth_error h a = Some p -> Refs.store h a p = h.
Proof.
  revert a. induction h as [|q h IH]; intros a Ha.
  - destruct a; discriminate.
  - destruct a as [|a]; cbn in *.
    + injection Ha as ->. reflexivity.
    + rewrite IH by exact Ha. reflexivity.
Qed.

Lemma index_ok {A : Type} (xs : list A) (i : nat) (a : A) :
  index xs i = Ok a <-> nth_error xs i = Some a.
Proof.
  unfold index. destruct (nth_error xs i) as [b|]; split; intros Hh;
    try discriminate; injection Hh as ->; reflexivity.
Qed.

Lemma mapM_In {A B : Type} (f : A -> result B) (xs : list A) (ys : list B) (a : A) :
  mapM f xs = Ok ys -> In a xs -> exists b, f a = Ok b /\ In b ys.
Proof.
  revert ys. induction xs as [|a0 xs IH]; intros ys Hm Ha; [destruct Ha|].
  cbn [mapM] in Hm.
  destruct (f a0) as [b0|e] eqn:Hb0; cbn [bind] in Hm; [|discriminate].
  destruct (mapM f xs) as [bs|e] eqn:Hbs; cbn [bind] in Hm; [|discriminate].
  injection Hm as <-. destruct Ha as [<-|Ha].
  - exists b0. split; [exact Hb0|left; reflexivity].
  - destruct (IH bs eq_refl Ha) as (b & Hb & Hin).
    exists b. split; [exact Hb|right; exact Hin].
Qed.

(** Dividing by a sum of [1] writes every weight back as it was. *)
Lemma normalize_loop_identity (h : Refs.heap) (todo : list Refs.address)
      (particles : list Particle) :
  mapM (Refs.deref h) todo = Ok particles ->
  Refs.normalize_loop 1 h todo = Ok h.
Proof.
  revert particles. induction todo as [|a todo IH]; intros particles Hm.
  - reflexivity.
  - cbn [mapM] in Hm.
    destruct (Refs.deref h a) as [p|e] eqn:Hp; cbn [bind] in Hm; [|discriminate].
    destruct (mapM (Refs.deref h) todo) as [ps|e] eqn:Hps; cbn [bind] in Hm;
      [|discriminate].
    cbn [Refs.normalize_loop]. rewrite Hp. cbn [bind]. unfold div.
    destruct (Req_dec_T 1 0) as [Hz|_]; [lra|]. cbn [bind].
    rewrite set_w_div_one, store_same.
    + apply (IH ps). reflexivity.
    + apply index_ok. exact Hp.
Qed.

Lemma normalize_particles_identity (h : Refs.heap) (cloud : list Refs.address)
      (particles : list Particle) :
  mapM (Refs.deref h) cloud = Ok particles ->
  weights_sum particles = 1 ->
  Refs.normalize_particles h cloud = Ok h.
Proof.
  intros Hm Hsum. unfold Refs.normalize_particles. rewrite Hm. cbn [bind].
  rewrite Hsum. eapply normalize_loop_identity. exact Hm.
Qed.

(** *** The bins *)

Lemma leb_true (a b : R) : leb a b = true <-> a <= b.
Proof.
  unfold leb. destruct (Rle_dec a b) as [Hle|Hnle]; split; intros Hh;
    try reflexivity; try assumption; try discriminate. contradiction.
Qed.

Lemma accumulate_from_length (l : list R) (acc : R) :
  length (accumulate_from acc l) = length l.
Proof.
  revert acc. induction l as [|p l IH]; intros acc; cbn; [reflexivity|].
  rewrite IH. reflexivity.
Qed.

Lemma accumulate_length (l : list R) : length (accumulate l) = length l.
Proof. destruct l; cbn; [reflexivity|]. rewrite accumulate_from_length. reflexivity. Qed.

Lemma accumulate_from_nondecreasing (l : list R) :
  Forall (fun v => 0 <= v) l ->
  forall acc, nondecreasing (acc :: accumulate_from acc l) = true.
Proof.
  induction 1 as [|p l Hp _ IH]; intros acc.
  - reflexivity.
  - cbn [accumulate_from]. change (nondecreasing (acc :: (acc + p) :: accumulate_from (acc + p) l))
      with (leb acc (acc + p) && nondecreasing ((acc + p) :: accumulate_from (acc + p) l)).
    rewrite IH, andb_true_r. apply leb_true. lra.
Qed.

Lemma accumulate_nondecreasing (l : list R) :
  Forall (fun v => 0 <= v) l -> nondecreasing (accumulate l) = true.
Proof.
  intros Hl. destruct Hl as [|p l Hp Hl]; [reflexivity|].
  cbn [accumulate]. apply accumulate_from_nondecreasing. exact Hl.
Qed.

(** The last bin is the sum of the probabilities. *)
Lemma accumulate_from_total (l : list R) :
  l <> [] -> forall acc, In (acc + sum l) (accumulate_from acc l).
Proof.
  induction l as [|p l IH]; intros Hne acc; [congruence|].
  cbn [accumulate_from]. destruct l as [|q l].
  - left. rewrite sum_cons, sum_nil. lra.
  - right. replace (acc + sum (p :: q :: l)) with (acc + p + sum (q :: l))
      by (rewrite (sum_cons p); lra).
    apply IH. discriminate.
Qed.

Lemma accumulate_total (l : list R) : l <> [] -> In (sum l) (accumulate l).
Proof.
  destruct l as [|p l]; intros Hne; [congruence|].
  cbn [accumulate]. destruct l as [|q l].
  - left. rewrite sum_cons, sum_nil. lra.
  - right. rewrite sum_cons. apply accumulate_from_total. discriminate.
Qed.

Lemma filter_length_lt {A : Type} (f : A -> bool) (l : list A) (b : A) :
  In b l -> f b = false -> (length (filter f l) < length l)%nat.
Proof.
  induction l as [|a l IH]; intros Hin Hb; [destruct Hin|].
  cbn [filter length]. pose proof (filter_length_le f l) as Hle.
  destruct Hin as [->|Hin].
  - rewrite Hb. lia.
  - specialize (IH Hin Hb). destruct (f a); cbn [length]; lia.
Qed.

(** A draw below the total falls into one of the bins. *)
Lemma digitize_in_range (probabilities us : list R) :
  Forall (fun v => 0 <= v) probabilities ->
  probabilities <> [] ->
  Forall (fun u => u < sum probabilities) us ->
  exists ds,
    digitize us (accumulate probabilities) = Ok ds
    /\ length ds = length us
    /\ Forall (fun d => (d < length probabilities)%nat) ds.
Proof.
  intros Hnn Hne Hus. unfold digitize.
  rewrite accumulate_nondecreasing by exact Hnn.
  eexists. split; [reflexivity|]. split; [apply length_map|].
  apply Forall_map. eapply Forall_impl; [|exact Hus]. cbn. intros u Hu.
  rewrite <- (accumulate_length probabilities).
  apply filter_length_lt with (b := sum probabilities).
  - apply accumulate_total. exact Hne.
  - destruct (leb (sum probabilities) u) eqn:Hb; [|reflexivity].
    apply leb_true in Hb. lra.
Qed.

(** *** The copies *)

Lemma mapM_index_seq (n : nat) (ds : list nat) :
  Forall (fun d => (d < n)%nat) ds -> mapM (index (seq 0 n)) ds = Ok ds.
Proof.
  induction 1 as [|d ds Hd _ IH]; [reflexivity|].
  cbn [mapM]. unfold index at 1.
  rewrite nth_error_seq. destruct (Nat.ltb_spec d n) as [_|Hge]; [|lia].
  cbn [bind Nat.add]. rewrite IH. reflexivity.
Qed.

(** Each pass of the copy loop allocates one object after the end of the
    heap, holding the attributes of the chosen particle; the objects below
    are not touched. *)
Lemma copy_loop_spec (choices : list Refs.address) (h0 : Refs.heap) :
  forall inds h samples,
    (forall a p, nth_error h0 a = Some p -> nth_error h a = Some p) ->
    Forall (fun i => exists a p, nth_error choices i = Some a
                                 /\ nth_error h0 a = Some p) inds ->
    exists copies,
      Refs.copy_loop choices inds h samples
      = Ok (h ++ copies, samples ++ seq (length h) (length inds))
      /\ Forall2 (fun i p => exists a, nth_error choices i = Some a
                                      /\ nth_error h0 a = Some p) inds copies.
Proof.
  induction inds as [|i inds IH]; intros h samples Hext Hinds.
  - exists []. cbn. rewrite !app_nil_r. split; [reflexivity|constructor].
  - inversion Hinds as [|? ? (a & p & Ha & Hp) Hrest]; subst.
    destruct (IH (h ++ [p]) (samples ++ [length h])) as (copies & Hrun & Hcopies).
    + intros a' p' Hp'. rewrite nth_error_app1.
      * apply Hext. exact Hp'.
      * apply nth_error_Some. rewrite (Hext a' p' Hp'). discriminate.
    + exact Hrest.
    + exists (p :: copies). split.
      * cbn [Refs.copy_loop]. unfold index at 1. rewrite Ha. cbn [bind].
        unfold Refs.deepcopy, Refs.deref, index. rewrite (Hext a p Hp).
        cbn [bind fst snd]. refine (eq_trans Hrun _).
        rewrite <- !app_assoc. cbn [app length seq].
        rewrite length_app. cbn [length].
        replace (length h + 1)%nat with (S (length h)) by lia. reflexivity.
      * constructor; [|exact Hcopies]. exists a. split; assumption.
Qed.

Lemma Forall2_nth_left {A B : Type} (P : A -> B -> Prop) (l1 : list A) (l2 : list B) :
  Forall2 P l1 l2 ->
  forall j a, nth_error l1 j = Some a ->
              exists b, nth_error l2 j = Some b /\ P a b.
Proof.
  induction 1 as [|a0 b0 l1 l2 Hab _ IH]; intros j a Hj.
  - destruct j; discriminate.
  - destruct j as [|j]; cbn in *.
    + injection Hj as <-. exists b0. split; [reflexivity|exact Hab].
    + apply IH. exact Hj.
Qed.

Lemma mapM_deref_valid (h : Refs.heap) (cloud : list Refs.address)
      (particles : list Particle) :
  mapM (Refs.deref h) cloud = Ok particles ->
  length particles = length cloud
  /\ forall i, (i < length cloud)%nat ->
               exists a p, nth_error cloud i = Some a /\ nth_error h a = Some p.
Proof.
  intros Hm. split; [eapply mapM_length; exact Hm|].
  intros i Hi. destruct (nth_error cloud i) as [a|] eqn:Ha.
  - destruct (mapM_nth _ _ _ i a Hm Ha) as (p & Hp & _).
    exists a, p. split; [reflexivity|]. apply index_ok. exact Hp.
  - apply nth_error_None in Ha. lia.
Qed.

(** Resampling on exact reals.  For a cloud of [N] addresses into the heap
    whose particles have non-negative weights that sum to [1], every draw
    in [[0, 1)] falls below the last bin, and resampling returns a cloud of
    exactly [N] addresses; they are pairwise distinct and all new (beyond
    the end of the old heap: no object is shared with the input cloud, or
    between two entries); each new object has the [(x, y, theta)] of the
    object at some address of the input cloud; and the old objects are as
    they were.  (On binary64 the last bin need not reach the largest draw:
    see the end of this part.) *)
Theorem resample_copies_input `{World} (h : Refs.heap) (cloud : list Refs.address)
        (k : nat) (particles : list Particle) :
  (forall j, 0 <= random_stream j < 1) ->
  mapM (Refs.deref h) cloud = Ok particles ->
  Forall (fun p => 0 <= w p) particles ->
  weights_sum particles = 1 ->
  exists h' cloud',
    Refs.resample_particles h cloud k = Ok (h', cloud')
    /\ length cloud' = length cloud
    /\ NoDup cloud'
    /\ Forall (fun a => (length h <= a)%nat) cloud'
    /\ Forall (fun a => exists p' a0 p0,
                   Refs.deref h' a = Ok p' /\ In a0 cloud
                   /\ Refs.deref h a0 = Ok p0
                   /\ Refs.pose_of p' = Refs.pose_of p0) cloud'
    /\ (forall a p, Refs.deref h a = Ok p -> Refs.deref h' a = Ok p).
Proof.
  intros Hdraws Hm Hnn Hsum.
  destruct (mapM_deref_valid h cloud particles Hm) as (Hlen & Hvalid).
  assert (Hne : map w particles <> []).
  { intros Hnil. unfold weights_sum in Hsum. rewrite Hnil, sum_nil in Hsum. lra. }
  destruct (digitize_in_range (map w particles)
              (map random_stream (seq k (length cloud))))
    as (ds & Hds & Hdslen & Hdsrange).
  { apply Forall_map. eapply Forall_impl; [|exact Hnn]. cbn. intros; assumption. }
  { exact Hne. }
  { apply Forall_map. apply Forall_forall. intros j _.
    fold (weights_sum particles). rewrite Hsum. apply Hdraws. }
  rewrite length_map, length_seq in Hdslen.
  rewrite length_map, Hlen in Hdsrange.
  destruct (copy_loop_spec cloud h ds h []) as (copies & Hrun & Hcopies).
  { intros a p Hp. exact Hp. }
  { eapply Forall_impl; [|exact Hdsrange]. cbn. intros i Hi. apply Hvalid. exact Hi. }
  exists (h ++ copies), (seq (length h) (length ds)).
  split; [|split; [|split; [|split; [|split]]]].
  - unfold Refs.resample_particles.
    rewrite (normalize_particles_identity h cloud particles Hm Hsum). cbn [bind].
    rewrite Hm. cbn [bind]. unfold Refs.draw_random_sample.
    rewrite Hds. cbn [bind].
    rewrite (mapM_index_seq (length cloud) ds Hdsrange). cbn [bind].
    rewrite Hrun. reflexivity.
  - rewrite length_seq. exact Hdslen.
  - apply seq_NoDup.
  - apply Forall_forall. intros a Ha. apply in_seq in Ha. lia.
  - apply Forall_forall. intros a Ha. apply in_seq in Ha.
    assert (Hj : exists j, a = (length h + j)%nat /\ (j < length ds)%nat).
    { exists (a - length h)%nat. lia. }
    destruct Hj as (j & -> & Hj).
    destruct (nth_error ds j) as [i|] eqn:Hi; [|apply nth_error_None in Hi; lia].
    destruct (Forall2_nth_left _ _ _ Hcopies j i Hi) as (p & Hp & a0 & Ha0 & Hp0).
    exists p, a0, p. split; [|split; [|split]].
    + unfold Refs.deref. apply index_ok.
      rewrite nth_error_app2 by lia.
      replace (length h + j - length h)%nat with j by lia. exact Hp.
    + eapply nth_error_In. exact Ha0.
    + apply index_ok. exact Hp0.
    + reflexivity.
  - intros a p Hp. unfold Refs.deref in *. apply index_ok. apply index_ok in Hp.
    rewrite nth_error_app1; [exact Hp|]. apply nth_error_Some. congruence.
Qed.

Lemma resample_copies_input_witness :
  exists h' cloud',
    Refs.resample_particles (H := world_open_field)
      [mkParticle 0 0 0 (1 / 2); mkParticle 1 0 PI (1 / 2)] [0; 1]%nat 0
    = Ok (h', cloud')
    /\ length cloud' = 2%nat.
Proof.
  destruct (resample_copies_input (H := world_open_field)
              [mkParticle 0 0 0 (1 / 2); mkParticle 1 0 PI (1 / 2)] [0; 1]%nat 0
              [mkParticle 0 0 0 (1 / 2); mkParticle 1 0 PI (1 / 2)])
    as (h' & cloud' & Hrun & Hlen & _).
  - intros j. cbn. lra.
  - reflexivity.
  - repeat constructor; cbn; lra.
  - rewrite weights_sum_pair. cbn. lra.
  - exists h', cloud'. split; [exact Hrun|exact Hlen].
Defined.

(** ** Resampling on binary64 *)

(** C5: a cloud with normalised weights and the largest draw of
    [random_sample()].  For the five hundred particles of
    [one_heavy_particle_normalized], [resample_particles] normalises the
    weights once more (they sum to [1.0000000000000124]); the running sums
    of the bins end at [0.9999999999999815], below the draw; [np.digitize]
    returns [500], the number of bins, for it; and [values[500]] raises
    [IndexError]: no cloud is returned.  The same happens for nine
    particles of equal weight, whose bins end at [0.9999999999999996]. *)
Theorem resample_raises_on_rounded_bins :
  (Binary64.normalize_particles one_heavy_particle = Ok one_heavy_particle_normalized
   /\ length one_heavy_particle_normalized = n_particles
   /\ Binary64.weights_sum one_heavy_particle_normalized = 0x1.0000000000038p+0%float
   /\ Binary64.normalize_particles one_heavy_particle_normalized
      = Ok (Binary64.mkParticle 0 0 0 0x1.059eea072754dp-8
            :: repeat (Binary64.mkParticle 0 0 0 0x1.059eea072754dp-9) 499)
   /\ last (Binary64.accumulate
              (0x1.059eea072754dp-8 :: repeat 0x1.059eea072754dp-9 499)%float) 0%float
      = 0x1.fffffffffff59p-1%float
   /\ (0x1.fffffffffff59p-1 <? largest_draw)%float = true
   /\ (largest_draw <? 1)%float = true
   /\ Binary64.digitize [largest_draw]
        (Binary64.accumulate
           (0x1.059eea072754dp-8 :: repeat 0x1.059eea072754dp-9 499)%float)
      = Ok [500%nat]
   /\ index (seq 0 500) 500 = Raise IndexError
   /\ Binary64.resample_particles (fun _ => largest_draw)
        one_heavy_particle_normalized 0
      = Raise IndexError)
  /\ (Binary64.weights_sum nine_equal_weights = 0x1.0000000000001p+0%float
      /\ Binary64.normalize_particles nine_equal_weights
         = Ok (map (fun p => Binary64.set_w p 0x1.c71c71c71c71ap-4%float)
                   nine_equal_weights)
      /\ last (Binary64.accumulate (repeat 0x1.c71c71c71c71ap-4%float 9)) 0%float
         = 0x1.ffffffffffffcp-1%float
      /\ (0x1.ffffffffffffcp-1 <? largest_draw)%float = true
      /\ Binary64.digitize [largest_draw]
           (Binary64.accumulate (repeat 0x1.c71c71c71c71ap-4%float 9))
         = Ok [9%nat]
      /\ Binary64.resample_particles (fun _ => largest_draw) nine_equal_weights 0
         = Raise IndexError).
Proof. vm_compute. repeat split; reflexivity. Qed.

(** * Further properties of the node *)

(** ** What the loops over the cloud keep *)

Section LoopFrames.

Context `{World}.

Lemma Forall2_refl_rel {A : Type} (P : A -> A -> Prop) (l : list A) :
  (forall a, P a a) -> Forall2 P l l.
Proof. intros Hr. induction l; constructor; auto. Qed.

(** A loop over the cloud whose body leaves the list alone and returns a
    particle related to the one it was given: whether the loop returns or
    raises, the cloud it leaves is related to the old one position by
    position. *)
Lemma for_particles_related (P : Particle -> Particle -> Prop)
      (body : Particle -> M Particle) :
  (forall p, P p p) ->
  (forall p s, particle_cloud (snd (body p s)) = particle_cloud s) ->
  (forall p s p', fst (body p s) = Ok p' -> P p p') ->
  forall todo done s,
    particle_cloud s = done ++ todo ->
    exists todo',
      particle_cloud (snd (for_particles body done todo s)) = done ++ todo'
      /\ Forall2 P todo todo'.
Proof.
  intros Hrefl Hkeep Hbody. induction todo as [|p todo IH]; intros done s Hs.
  - exists []. split; [exact Hs|constructor].
  - cbn [for_particles]. unfold mbind at 1.
    specialize (Hkeep p s). specialize (Hbody p s).
    destruct (body p s) as [[p'|e] s1]; cbn [fst snd] in *.
    + unfold mbind at 1. unfold modify at 1.
      destruct (IH (done ++ [p']) (set_particle_cloud (done ++ p' :: todo) s1))
        as (todo' & Hcloud & Hrel).
      { cbn [particle_cloud set_particle_cloud]. rewrite <- app_assoc. reflexivity. }
      exists (p' :: todo'). split.
      * rewrite Hcloud, <- app_assoc. reflexivity.
      * constructor; [apply Hbody; reflexivity|exact Hrel].
    + exists (p :: todo). split.
      * rewrite Hkeep. exact Hs.
      * apply Forall2_refl_rel. exact Hrefl.
Qed.

Lemma for_each_particle_related (P : Particle -> Particle -> Prop)
      (body : Particle -> M Particle) (s : Node) :
  (forall p, P p p) ->
  (forall p s, particle_cloud (snd (body p s)) = particle_cloud s) ->
  (forall p s p', fst (body p s) = Ok p' -> P p p') ->
  Forall2 P (particle_cloud s) (particle_cloud (snd (for_each_particle body s))).
Proof.
  intros Hrefl Hkeep Hbody. unfold for_each_particle, mbind, gets.
  destruct (for_particles_related P body Hrefl Hkeep Hbody (particle_cloud s) [] s eq_refl)
    as (todo' & Hcloud & Hrel).
  rewrite Hcloud. exact Hrel.
Qed.

Lemma lift_returns {A : Type} (r : result A) (s : Node) (a : A) :
  fst (lift r s) = Ok a -> r = Ok a.
Proof. intros Hr. exact Hr. Qed.

Lemma inner_loop_keeps_pose (ranges : list R) (thetas : list nat) :
  forall st st',
    inner_loop ranges thetas st = Ok st' ->
    Refs.pose_of (l_particle st') = Refs.pose_of (l_particle st).
Proof.
  induction thetas as [|deg thetas IH]; intros st st' Hrun.
  - injection Hrun as <-. reflexivity.
  - cbn [inner_loop] in Hrun.
    destruct (bearing_error ranges (l_particle st) deg) as [[err|]|e];
      cbn [bind] in Hrun; [| |discriminate].
    + apply IH in Hrun. exact Hrun.
    + injection Hrun as <-. reflexivity.
Qed.

Lemma reweigh_keeps_pose (ranges : list R) (p p' : Particle) :
  reweigh ranges p = Ok p' -> Refs.pose_of p' = Refs.pose_of p.
Proof.
  unfold reweigh, scan_particle. generalize range_0_360_10. intros thetas.
  destruct (inner_loop ranges thetas (mkLoop p [] [])) as [st|e] eqn:Hrun;
    cbn [bind]; [|discriminate].
  apply inner_loop_keeps_pose in Hrun. cbn [l_particle] in Hrun.
  destruct (Req_dec_T _ 0); intros [= <-]; exact Hrun.
Qed.

End LoopFrames.

(** X1: the sensor update never moves a particle and never changes the
    size of the cloud: whether it returns or raises on a short scan, the
    cloud it leaves has, position by position, the [(x, y, theta)] of the
    cloud it was given. *)
Theorem laser_update_keeps_poses `{World} (msg : LaserScan) (s : Node) :
  map Refs.pose_of (particle_cloud (snd (update_particles_with_laser msg s)))
  = map Refs.pose_of (particle_cloud s)
  /\ length (particle_cloud (snd (update_particles_with_laser msg s)))
     = length (particle_cloud s).
Proof.
  assert (Hrel : Forall2 (fun p q => Refs.pose_of q = Refs.pose_of p)
                         (particle_cloud s)
                         (particle_cloud (snd (update_particles_with_laser msg s)))).
  { unfold update_particles_with_laser. apply for_each_particle_related.
    - reflexivity.
    - reflexivity.
    - intros p s0 p' Hp. apply lift_returns in Hp.
      apply reweigh_keeps_pose in Hp. exact Hp. }
  split.
  - induction Hrel as [|p q l l' Hpq _ IH]; cbn [map]; [reflexivity|].
    rewrite Hpq, IH. reflexivity.
  - symmetry. eapply Forall2_length. exact Hrel.
Qed.

(** X2: the motion update never changes a weight or the size of the
    cloud, and a rotation in place (no change of the odometry [x] and [y])
    moves no particle: every [x] and [y] is as before. *)
Theorem motion_update_keeps_weights `{World} (s : Node) (new_odom old_odom : R * R * R) :
  odom_pose s = Some new_odom ->
  current_odom_xy_theta s = Some old_odom ->
  exists s',
    update_particles_with_odom s = (Ok tt, s')
    /\ length (particle_cloud s') = length (particle_cloud s)
    /\ map w (particle_cloud s') = map w (particle_cloud s)
    /\ (fst (fst new_odom) = fst (fst old_odom) ->
        snd (fst new_odom) = snd (fst old_odom) ->
        map x (particle_cloud s') = map x (particle_cloud s)
        /\ map y (particle_cloud s') = map y (particle_cloud s)).
Proof.
  intros Hodom Hcur. eexists. split.
  - apply update_particles_with_odom_moves; eassumption.
  - cbn [particle_cloud set_particle_cloud set_drawn set_current_odom_xy_theta].
    destruct new_odom as [[n0 n1] n2]. destruct old_odom as [[o0 o1] o2].
    cbn [fst snd]. generalize (drawn s). generalize (particle_cloud s).
    intros cloud k. split; [|split].
    + apply advance_all_length.
    + revert k. induction cloud as [|p cloud IH]; intros k; cbn [advance_all map];
        [reflexivity|]. rewrite IH. reflexivity.
    + intros H0 H1. subst n0 n1.
      assert (Hd : sqrt (Rsqr (o0 - o0) + Rsqr (o1 - o1)) = 0).
      { replace (Rsqr (o0 - o0) + Rsqr (o1 - o1)) with 0 by (unfold Rsqr; lra).
        apply sqrt_0. }
      revert k. induction cloud as [|p cloud IH]; intros k; cbn [advance_all map].
      * split; reflexivity.
      * destruct (IH (k + 4)%nat) as (Hx & Hy). rewrite Hx, Hy.
        unfold advance. cbn [x y]. rewrite Hd.
        split; f_equal; lra.
Qed.

Lemma motion_update_keeps_weights_witness :
  exists s',
    update_particles_with_odom (H := world_uneven_draws) node_unit_step = (Ok tt, s')
    /\ map w (particle_cloud s') = [1].
Proof.
  destruct (motion_update_keeps_weights (H := world_uneven_draws) node_unit_step
              (1, 0, 0) (0, 0, 0) eq_refl eq_refl)
    as (s' & Hrun & _ & Hw & _).
  exists s'. split; [exact Hrun|exact Hw].
Defined.

(** ** The initial cloud *)

Section InitFacts.

Context `{World}.

Lemma set_particle_cloud_twice (c1 c2 : list Particle) (s : Node) :
  set_particle_cloud c2 (set_particle_cloud c1 s) = set_particle_cloud c2 s.
Proof. reflexivity. Qed.

(** Normalising a cloud whose weights sum to [1] changes nothing. *)
Lemma normalize_particles_normalized (s : Node) :
  weights_sum (particle_cloud s) = 1 -> normalize_particles s = (Ok tt, s).
Proof.
  intros Hone. rewrite normalize_particles_ok by (rewrite Hone; lra).
  rewrite Hone, normalize_identity, set_particle_cloud_same. reflexivity.
Qed.

(** [random_sample(n)] reads the next [n] values of the stream. *)
Lemma random_samples_spec (n : nat) :
  forall s,
    random_samples n s
    = (Ok (map random_stream (seq (drawn s) n)), set_drawn (drawn s + n) s).
Proof.
  induction n as [|n IH]; intros s; cbn [random_samples seq map].
  - unfold ret. replace (drawn s + 0)%nat with (drawn s) by lia.
    destruct s; reflexivity.
  - unfold mbind at 1. unfold random_sample at 1. unfold mbind at 1.
    rewrite IH. unfold ret. cbn [drawn set_drawn].
    replace (S (drawn s) + n)%nat with (drawn s + S n)%nat by lia.
    destruct s; reflexivity.
Qed.

Lemma initial_cloud_length (xy_theta : R * R * R) (n : nat) :
  forall k, length (initial_cloud xy_theta k n) = n.
Proof.
  induction n as [|n IH]; intros k; cbn [initial_cloud length];
    [reflexivity|rewrite IH; reflexivity].
Qed.

Lemma initial_cloud_weights (xy_theta : R * R * R) (n : nat) :
  forall k, Forall (fun p => w p = 1) (initial_cloud xy_theta k n).
Proof.
  induction n as [|n IH]; intros k; cbn [initial_cloud]; constructor;
    [reflexivity|apply IH].
Qed.

Lemma weights_sum_cons (p : Particle) (cloud : list Particle) :
  weights_sum (p :: cloud) = w p + weights_sum cloud.
Proof. unfold weights_sum. cbn [map]. apply sum_cons. Qed.

Lemma weights_sum_ones (cloud : list Particle) :
  Forall (fun p => w p = 1) cloud -> weights_sum cloud = INR (length cloud).
Proof.
  induction 1 as [|p cloud Hp _ IH].
  - reflexivity.
  - rewrite weights_sum_cons, Hp, IH. cbn [length]. rewrite S_INR. lra.
Qed.

Lemma initial_cloud_box (xy_theta : R * R * R) (n : nat) :
  (forall k, 0 <= random_stream k < 1) ->
  forall k,
    Forall (fun p => Rabs (x p - fst (fst xy_theta)) <= 1 / 2
                     /\ Rabs (y p - snd (fst xy_theta)) <= 1 / 2
                     /\ Rabs (theta p - snd xy_theta) <= PI / 4)
           (initial_cloud xy_theta k n).
Proof.
  intros Hdraws. induction n as [|n IH]; intros k; cbn [initial_cloud];
    constructor; [|apply IH].
  cbn [x y theta]. unfold lin_noise, ang_noise.
  pose proof (Hdraws k) as H0. pose proof (Hdraws (k + 1)%nat) as H1.
  pose proof (Hdraws (k + 2)%nat) as H2. pose proof PI_RGT_0 as Hpi.
  repeat split; apply Rabs_le; split; try lra; try nra.
Qed.

(** The loop of [initialize_particle_cloud] appends [n] particles and
    consumes three draws for each. *)
Lemma initialize_loop (xy0 xy1 xy2 : R) (n : nat) :
  forall s,
    repeatM n
      (u1 <- random_sample ;;
       u2 <- random_sample ;;
       u3 <- random_sample ;;
       cloud <- gets particle_cloud ;;
       modify (set_particle_cloud
                 (cloud ++ [mkParticle (xy0 + (u1 * lin_noise - lin_noise / 2))
                                       (xy1 + (u2 * lin_noise - lin_noise / 2))
                                       (xy2 + (u3 * ang_noise - ang_noise / 2)) 1]))) s
    = (Ok tt,
       set_drawn (drawn s + 3 * n)
         (set_particle_cloud
            (particle_cloud s ++ initial_cloud (xy0, xy1, xy2) (drawn s) n) s)).
Proof.
  set (body := mbind random_sample _).
  assert (Hbody : forall s,
             body s
             = (Ok tt,
                set_drawn (drawn s + 3)
                  (set_particle_cloud
                     (particle_cloud s ++ initial_cloud (xy0, xy1, xy2) (drawn s) 1) s))).
  { intros s. unfold body, mbind, random_sample, gets, modify.
    cbn [drawn set_drawn particle_cloud set_particle_cloud initial_cloud fst snd].
    replace (drawn s + 1)%nat with (S (drawn s)) by lia.
    replace (drawn s + 2)%nat with (S (S (drawn s))) by lia.
    replace (drawn s + 3)%nat with (S (S (S (drawn s)))) by lia.
    destruct s; reflexivity. }
  clearbody body.
  induction n as [|n IH]; intros s; cbn [repeatM initial_cloud].
  - unfold ret. rewrite app_nil_r, set_particle_cloud_same.
    replace (drawn s + 3 * 0)%nat with (drawn s) by lia.
    destruct s; reflexivity.
  - unfold mbind at 1. rewrite Hbody, IH.
    cbn [drawn set_drawn particle_cloud set_particle_cloud initial_cloud fst snd].
    rewrite <- app_assoc. cbn [app].
    replace (drawn s + 3 + 3 * n)%nat with (drawn s + 3 * S n)%nat by lia.
    destruct s; reflexivity.
Qed.

(** What follows the reading of [xy_theta] in [initialize_particle_cloud],
    for any positive number of particles. *)
Lemma initialize_steps (xy0 xy1 xy2 : R) (n : nat) (s : Node) :
  n <> 0%nat ->
  let cloud' := map (fun p => set_w p (1 / INR n))
                    (initial_cloud (xy0, xy1, xy2) (drawn s) n) in
  (modify (set_particle_cloud []) ;;
   repeatM n
     (u1 <- random_sample ;;
      u2 <- random_sample ;;
      u3 <- random_sample ;;
      cloud <- gets particle_cloud ;;
      modify (set_particle_cloud
                (cloud ++ [mkParticle (xy0 + (u1 * lin_noise - lin_noise / 2))
                                      (xy1 + (u2 * lin_noise - lin_noise / 2))
                                      (xy2 + (u3 * ang_noise - ang_noise / 2)) 1]))) ;;
   normalize_particles ;;
   update_robot_pose) s
  = (Ok tt,
     set_robot_pose (Some (as_pose (mean_pose cloud')))
       (set_particle_cloud cloud' (set_drawn (drawn s + 3 * n) s))).
Proof.
  intros Hn cloud'.
  assert (Hsum : weights_sum (initial_cloud (xy0, xy1, xy2) (drawn s) n) = INR n).
  { rewrite weights_sum_ones by apply initial_cloud_weights.
    rewrite initial_cloud_length. reflexivity. }
  assert (HINR : INR n <> 0) by (apply not_0_INR; exact Hn).
  assert (Hcloud : map (fun p => set_w p (w p / INR n))
                       (initial_cloud (xy0, xy1, xy2) (drawn s) n) = cloud').
  { unfold cloud'. apply map_ext_in. intros p Hp.
    pose proof (initial_cloud_weights (xy0, xy1, xy2) n (drawn s)) as Hw.
    rewrite Forall_forall in Hw. rewrite (Hw p Hp). reflexivity. }
  unfold mbind at 1. unfold modify at 1.
  unfold mbind at 1. rewrite initialize_loop.
  cbn [drawn particle_cloud set_particle_cloud app].
  unfold mbind at 1. rewrite normalize_particles_ok;
    cbn [particle_cloud set_drawn set_particle_cloud];
    [|rewrite Hsum; exact HINR].
  rewrite Hsum, Hcloud.
  rewrite update_robot_pose_normalized; cbn [particle_cloud set_particle_cloud].
  - destruct s; reflexivity.
  - rewrite <- Hcloud, weights_sum_normalized, Hsum. field. exact HINR.
Qed.

Lemma initialize_particle_cloud_some (xy_theta : R * R * R) (s : Node) :
  let cloud' := map (fun p => set_w p (1 / INR n_particles))
                    (initial_cloud xy_theta (drawn s) n_particles) in
  initialize_particle_cloud (Some xy_theta) s
  = (Ok tt,
     set_robot_pose (Some (as_pose (mean_pose cloud')))
       (set_particle_cloud cloud' (set_drawn (drawn s + 3 * n_particles) s))).
Proof.
  destruct xy_theta as [[xy0 xy1] xy2].
  unfold initialize_particle_cloud. unfold mbind at 1. unfold ret at 1.
  apply initialize_steps. discriminate.
Qed.

(** Without an argument the cloud is spread around the odometry pose; when
    the node has none the call raises before it writes anything. *)
Lemma initialize_particle_cloud_none (s : Node) :
  initialize_particle_cloud None s
  = match odom_pose s with
    | Some xy_theta => initialize_particle_cloud (Some xy_theta) s
    | None => (Raise AttributeError, s)
    end.
Proof.
  unfold initialize_particle_cloud. unfold mbind at 1. unfold attr at 1.
  destruct (odom_pose s) as [v|]; reflexivity.
Qed.

Lemma n_particles_INR : INR n_particles = 500.
Proof.
  unfold n_particles. rewrite INR_IZR_INZ. reflexivity.
Qed.

Lemma initial_cloud_nth (xy_theta : R * R * R) (n : nat) :
  forall k i,
    (i < n)%nat ->
    nth_error (initial_cloud xy_theta k n) i
    = Some (mkParticle
              (fst (fst xy_theta)
               + (random_stream (k + 3 * i) * lin_noise - lin_noise / 2))
              (snd (fst xy_theta)
               + (random_stream (k + 3 * i + 1) * lin_noise - lin_noise / 2))
              (snd xy_theta
               + (random_stream (k + 3 * i + 2) * ang_noise - ang_noise / 2)) 1).
Proof.
  induction n as [|n IH]; intros k i Hi; [lia|].
  destruct i as [|i]; cbn [initial_cloud nth_error].
  - replace (k + 3 * 0)%nat with k by lia. reflexivity.
  - rewrite IH by lia.
    replace (k + 3 + 3 * i)%nat with (k + 3 * S i)%nat by lia. reflexivity.
Qed.

Lemma map_pose_of_set_w (v : R) (cloud : list Particle) :
  map Refs.pose_of (map (fun p => set_w p v) cloud) = map Refs.pose_of cloud.
Proof. rewrite map_map. apply map_ext. intros p. reflexivity. Qed.

End InitFacts.

(** X3: [initialize_particle_cloud] with a pose
    returns, discards the cloud it finds and leaves [n_particles = 500]
    particles of one positive weight; it consumes 1500 draws, three for each
    particle in the order [x], [y], [theta]; and the pose estimate it stores
    is the one of the new cloud. *)
Theorem initialize_particle_cloud_fresh `{World} (xy_theta : R * R * R) (s : Node) :
  exists s',
    initialize_particle_cloud (Some xy_theta) s = (Ok tt, s')
    /\ length (particle_cloud s') = 500%nat
    /\ drawn s' = (drawn s + 1500)%nat
    /\ (exists v, 0 < v /\ Forall (fun p => w p = v) (particle_cloud s'))
    /\ (forall i, (i < 500)%nat ->
         exists p,
           nth_error (particle_cloud s') i = Some p
           /\ x p = fst (fst xy_theta)
                    + (random_stream (drawn s + 3 * i) * lin_noise - lin_noise / 2)
           /\ y p = snd (fst xy_theta)
                    + (random_stream (drawn s + 3 * i + 1) * lin_noise - lin_noise / 2)
           /\ theta p = snd xy_theta
                        + (random_stream (drawn s + 3 * i + 2) * ang_noise
                           - ang_noise / 2))
    /\ robot_pose s' = Some (as_pose (mean_pose (particle_cloud s')))
    /\ initialized s' = initialized s
    /\ current_odom_xy_theta s' = current_odom_xy_theta s
    /\ particle_pub s' = particle_pub s.
Proof.
  eexists. split; [apply initialize_particle_cloud_some|].
  cbn [particle_cloud drawn robot_pose initialized current_odom_xy_theta particle_pub
       set_robot_pose set_particle_cloud set_drawn].
  rewrite n_particles_INR. change n_particles with 500%nat.
  pose proof (initial_cloud_length xy_theta 500 (drawn s)) as Hlen.
  pose proof (fun i => initial_cloud_nth xy_theta 500 (drawn s) i) as Hnth.
  revert Hlen Hnth.
  generalize (initial_cloud xy_theta (drawn s) 500). intros cloud Hlen Hnth.
  split; [rewrite length_map; exact Hlen|].
  split; [reflexivity|].
  split.
  { exists (1 / 500). split; [lra|].
    clear. induction cloud as [|p cloud IH]; cbn [map]; constructor;
      [reflexivity|exact IH]. }
  split; [|repeat split].
  intros i Hi. rewrite nth_error_map, (Hnth i Hi). cbn [option_map].
  eexists. split; [reflexivity|]. cbn [x y theta set_w]. repeat split.
Qed.

(** ** The size of the cloud *)

Section SizeFacts.

Context `{World}.

Lemma length_ret {A : Type} (a : A) : keeps_length (ret a).
Proof. intros s. reflexivity. Qed.

Lemma length_raise {A : Type} (e : exn) : keeps_length (raise (A := A) e).
Proof. intros s. reflexivity. Qed.

Lemma length_gets {A : Type} (f : Node -> A) : keeps_length (gets f).
Proof. intros s. reflexivity. Qed.

Lemma length_lift {A : Type} (r : result A) : keeps_length (lift r).
Proof. intros s. reflexivity. Qed.

Lemma length_attr {A : Type} (f : Node -> option A) : keeps_length (attr f).
Proof. intros s. unfold attr. destruct (f s); reflexivity. Qed.

Lemma length_modify (f : Node -> Node) :
  (forall s, particle_cloud (f s) = particle_cloud s) -> keeps_length (modify f).
Proof. intros Hf s. cbn [modify snd]. rewrite Hf. reflexivity. Qed.

Lemma length_bind {A B : Type} (m : M A) (k : A -> M B) :
  keeps_length m -> (forall a, keeps_length (k a)) -> keeps_length (mbind m k).
Proof.
  intros Hm Hk s. unfold mbind. specialize (Hm s).
  destruct (m s) as [[a|e] s1]; cbn [snd] in *.
  - rewrite Hk. exact Hm.
  - exact Hm.
Qed.

Lemma length_for_each_particle (body : Particle -> M Particle) :
  (forall p s, particle_cloud (snd (body p s)) = particle_cloud s) ->
  keeps_length (for_each_particle body).
Proof.
  intros Hbody s. symmetry.
  apply (Forall2_length (R := fun _ _ => True)).
  apply for_each_particle_related; auto.
Qed.

Lemma length_normalize_particles : keeps_length normalize_particles.
Proof.
  unfold normalize_particles.
  apply length_bind; [apply length_gets|]. intros cloud.
  apply length_for_each_particle. intros p s. unfold mbind, lift, ret.
  destruct (div _ _); reflexivity.
Qed.

Lemma length_update_robot_pose : keeps_length update_robot_pose.
Proof.
  unfold update_robot_pose.
  apply length_bind; [apply length_normalize_particles|]. intros _.
  apply length_bind; [apply length_gets|]. intros cloud.
  apply length_modify. reflexivity.
Qed.

Lemma length_update_particles_with_odom : keeps_length update_particles_with_odom.
Proof.
  unfold update_particles_with_odom.
  apply length_bind; [apply length_attr|]. intros [[n0 n1] n2].
  apply length_bind; [apply length_gets|]. intros [[[o0 o1] o2]|].
  - apply length_bind; [apply length_modify; reflexivity|]. intros _.
    apply length_for_each_particle. intros p s.
    rewrite move_particle_advance. reflexivity.
  - apply length_modify. reflexivity.
Qed.

Lemma length_update_particles_with_laser (msg : LaserScan) :
  keeps_length (update_particles_with_laser msg).
Proof.
  unfold update_particles_with_laser.
  apply length_for_each_particle. reflexivity.
Qed.

Lemma digitize_length (us bins : list R) (ds : list nat) :
  digitize us bins = Ok ds -> length ds = length us.
Proof.
  unfold digitize.
  destruct (nondecreasing bins); [|destruct (nonincreasing bins)];
    intros [= <-]; try apply length_map.
Qed.

(** What [draw_random_sample] does with the node: it consumes [n] draws,
    and the samples it returns are [n] entries of [choices]. *)
Lemma draw_random_sample_cases (choices : list Particle) (probabilities : list R)
      (n : nat) (s : Node) :
  snd (draw_random_sample choices probabilities n s) = set_drawn (drawn s + n) s
  /\ forall samples,
      fst (draw_random_sample choices probabilities n s) = Ok samples ->
      length samples = n /\ Forall (fun q => In q choices) samples.
Proof.
  unfold draw_random_sample, mbind, lift. rewrite random_samples_spec.
  destruct (digitize _ _) as [ds|e] eqn:Hds; cbv beta iota;
    [|split; [reflexivity|intros samples Hsamples; discriminate Hsamples]].
  destruct (mapM (index (seq 0 (length choices))) ds) as [inds|e] eqn:Hinds;
    cbv beta iota;
    [|split; [reflexivity|intros samples Hsamples; discriminate Hsamples]].
  split; [reflexivity|]. cbn [fst]. intros samples Hsamples.
  split.
  - rewrite (mapM_length _ _ _ Hsamples), (mapM_length _ _ _ Hinds).
    rewrite (digitize_length _ _ _ Hds), length_map, length_seq. reflexivity.
  - eapply mapM_Forall; [|exact Hsamples].
    intros i q Hq. apply index_ok in Hq. eapply nth_error_In. exact Hq.
Qed.

Lemma length_resample_particles : keeps_length resample_particles.
Proof.
  intros s. unfold resample_particles. unfold mbind at 1.
  pose proof (length_normalize_particles s) as Hlen.
  destruct (normalize_particles s) as [[[]|e] s1]; cbn [snd] in *; [|exact Hlen].
  unfold mbind at 1. unfold gets at 1. unfold mbind at 1.
  destruct (draw_random_sample_cases (particle_cloud s1) (map w (particle_cloud s1))
              (length (particle_cloud s1)) s1) as [Hstate Hsamples].
  destruct (draw_random_sample _ _ _ s1) as [[samples|e] s2]; cbn [fst snd] in *.
  - destruct (Hsamples samples eq_refl) as [Hn _].
    cbn [modify snd particle_cloud set_particle_cloud]. rewrite Hn. exact Hlen.
  - rewrite Hstate. exact Hlen.
Qed.

Lemma length_fix_map_to_odom_transform (to_odom_frame : Pose -> result Pose) :
  keeps_length (fix_map_to_odom_transform to_odom_frame).
Proof.
  intros s.
  destruct (fix_map_to_odom_transform_cases to_odom_frame s)
    as [(e & ->)|(tr & ->)]; reflexivity.
Qed.

Lemma length_publish_particles : keeps_length publish_particles.
Proof.
  unfold publish_particles.
  apply length_bind; [apply length_gets|]. intros cloud.
  apply length_modify. reflexivity.
Qed.

Lemma length_broadcast_last_transform : keeps_length broadcast_last_transform.
Proof.
  unfold broadcast_last_transform.
  apply length_bind; [apply length_gets|]. intros [t|];
    (apply length_bind; [apply length_gets|]); intros [r|];
    try apply length_ret.
  apply length_modify. reflexivity.
Qed.

Lemma length_update_cycle (msg : LaserScan) : keeps_length (update_cycle msg).
Proof.
  unfold update_cycle.
  apply length_bind; [apply length_update_particles_with_odom|]. intros _.
  apply length_bind; [apply length_update_particles_with_laser|]. intros _.
  apply length_bind; [apply length_update_robot_pose|]. intros _.
  apply length_bind; [apply length_resample_particles|]. intros _.
  apply length_fix_map_to_odom_transform.
Qed.

(** *** Properties kept by every step *)

Lemma invariant_bind {A B : Type} (Q : Node -> Prop) (m : M A) (k : A -> M B) :
  invariant Q m -> (forall a, invariant Q (k a)) -> invariant Q (mbind m k).
Proof.
  intros Hm Hk s Hs. unfold mbind. specialize (Hm s Hs).
  destruct (m s) as [[a|e] s1]; cbn [snd] in *.
  - apply Hk. exact Hm.
  - exact Hm.
Qed.

Lemma invariant_same {A : Type} (Q : Node -> Prop) (m : M A) :
  (forall s, snd (m s) = s) -> invariant Q m.
Proof. intros Hm s Hs. rewrite Hm. exact Hs. Qed.

Lemma invariant_run (Q : Node -> Prop) :
  (forall e, invariant Q (callback e)) ->
  forall es s, Q s -> Q (run es s).
Proof.
  intros Hstep. unfold run. induction es as [|e es IH]; intros s Hs; cbn [fold_left].
  - exact Hs.
  - apply IH. unfold handle. apply Hstep. exact Hs.
Qed.

Lemma sized_keeps_length {A : Type} (m : M A) :
  keeps_length m -> invariant cloud_sized m.
Proof. intros Hm s Hs. unfold cloud_sized. rewrite Hm. exact Hs. Qed.

Lemma sized_initialize_particle_cloud (xy_theta : option (R * R * R)) :
  invariant cloud_sized (initialize_particle_cloud xy_theta).
Proof.
  assert (Hsome : forall v s,
             cloud_sized (snd (initialize_particle_cloud (Some v) s))).
  { intros v s. rewrite initialize_particle_cloud_some. right.
    cbn [snd particle_cloud set_robot_pose set_particle_cloud].
    rewrite length_map. apply initial_cloud_length. }
  intros s Hs. destruct xy_theta as [v|]; [apply Hsome|].
  rewrite initialize_particle_cloud_none.
  destruct (odom_pose s) as [v|]; [apply Hsome|exact Hs].
Qed.

Lemma sized_scan_received (msg : LaserScan) : invariant cloud_sized (scan_received msg).
Proof.
  unfold scan_received.
  apply invariant_bind; [apply sized_keeps_length, length_gets|]. intros ready.
  destruct (negb ready); [apply sized_keeps_length, length_ret|].
  destruct (negb (can_transform_laser msg)); [apply sized_keeps_length, length_ret|].
  destruct (negb (can_transform_odom msg)); [apply sized_keeps_length, length_ret|].
  apply invariant_bind; [apply sized_keeps_length, length_modify; reflexivity|].
  intros _.
  apply invariant_bind; [apply sized_keeps_length, length_gets|]. intros cloud.
  apply invariant_bind;
    [|intros _; apply sized_keeps_length, length_publish_particles].
  destruct cloud as [|p rest].
  - apply invariant_bind; [apply sized_initialize_particle_cloud|]. intros _.
    apply invariant_bind; [apply sized_keeps_length, length_modify; reflexivity|].
    intros _. apply sized_keeps_length, length_fix_map_to_odom_transform.
  - apply invariant_bind; [apply sized_keeps_length, length_gets|]. intros [cur|].
    + destruct (moved _ cur); apply sized_keeps_length;
        [apply length_update_cycle|apply length_ret].
    + apply sized_keeps_length, length_raise.
Qed.

Lemma sized_callback (e : event) : invariant cloud_sized (callback e).
Proof.
  destruct e as [|msg|msg|]; cbn [callback].
  - apply sized_keeps_length, length_modify. reflexivity.
  - apply sized_scan_received.
  - unfold update_initial_pose.
    apply invariant_bind; [apply sized_initialize_particle_cloud|]. intros _.
    apply sized_keeps_length, length_fix_map_to_odom_transform.
  - apply sized_keeps_length, length_broadcast_last_transform.
Qed.

End SizeFacts.

(** X4: the cloud never has another size than [0], as [__init__] leaves
    it, or [n_particles = 500]: after any sequence of callbacks and ticks
    from the start of the node, whichever of them raised.  The motion
    update, the sensor update, normalisation and the pose estimate keep the
    number of particles even when they raise midway, and resampling
    replaces the cloud only by as many samples as it had particles. *)
Theorem cloud_size_invariant `{World} (es : list event) :
  (length (particle_cloud (run es node0)) = 0%nat
   \/ length (particle_cloud (run es node0)) = 500%nat)
  /\ keeps_length normalize_particles
  /\ keeps_length update_robot_pose
  /\ keeps_length update_particles_with_odom
  /\ (forall msg, keeps_length (update_particles_with_laser msg))
  /\ keeps_length resample_particles.
Proof.
  split.
  - apply (invariant_run cloud_sized sized_callback es node0). left. reflexivity.
  - split; [apply length_normalize_particles|].
    split; [apply length_update_robot_pose|].
    split; [apply length_update_particles_with_odom|].
    split; [apply length_update_particles_with_laser|].
    apply length_resample_particles.
Qed.

(** ** The scan callback, case by case *)

Section ScanFacts.

Context `{World}.

(** The three early returns of [scan_received]. *)
Lemma scan_received_ignored (msg : LaserScan) (s : Node) :
  initialized s = false \/ ~ usable msg ->
  scan_received msg s = (Ok tt, s).
Proof.
  intros Hc. unfold scan_received. unfold mbind at 1. unfold gets at 1.
  destruct (initialized s); cbn [negb]; [|reflexivity].
  destruct Hc as [Hc|Hc]; [discriminate|].
  destruct (can_transform_laser msg) eqn:Hl; cbn [negb]; [|reflexivity].
  destruct (can_transform_odom msg) eqn:Ho; cbn [negb]; [|reflexivity].
  exfalso. apply Hc. split; assumption.
Qed.

(** Past the early returns: the odometry pose is stored, then the cloud is
    looked at. *)
Lemma scan_received_usable (msg : LaserScan) (s : Node) :
  initialized s = true -> usable msg ->
  scan_received msg s
  = (match particle_cloud s with
     | [] =>
         initialize_particle_cloud None ;;
         modify (set_current_odom_xy_theta (Some (scan_odom_xy_theta msg))) ;;
         fix_map_to_odom_transform (scan_to_odom_frame msg)
     | _ :: _ =>
         current <- gets current_odom_xy_theta ;;
         match current with
         | None => raise IndexError
         | Some current =>
             if moved (scan_odom_xy_theta msg) current
             then update_cycle msg else ret tt
         end
     end ;;
     publish_particles) (set_odom_pose (Some (scan_odom_xy_theta msg)) s).
Proof.
  intros Hinit [Hl Ho]. unfold scan_received. unfold mbind at 1. unfold gets at 1.
  rewrite Hinit, Hl, Ho. cbn [negb].
  unfold mbind at 1. unfold modify at 1.
  unfold mbind at 1. unfold gets at 1.
  cbn [particle_cloud set_odom_pose]. reflexivity.
Qed.

(** A cloud without a recorded odometry pose: reading
    [self.current_odom_xy_theta[0]] raises, after the odometry pose was
    stored and before anything is published. *)
Lemma scan_received_awaiting (msg : LaserScan) (s : Node) :
  initialized s = true -> usable msg ->
  particle_cloud s <> [] -> current_odom_xy_theta s = None ->
  scan_received msg s
  = (Raise IndexError, set_odom_pose (Some (scan_odom_xy_theta msg)) s).
Proof.
  intros Hinit Hmsg Hcloud Hcur. rewrite scan_received_usable by assumption.
  destruct (particle_cloud s) as [|p rest]; [contradiction|].
  unfold mbind, gets, raise. cbn [current_odom_xy_theta set_odom_pose].
  rewrite Hcur. reflexivity.
Qed.

(** The state in which the first usable scan leaves the node before it
    calls [fix_map_to_odom_transform]. *)
Lemma scan_received_first (msg : LaserScan) (s : Node) :
  initialized s = true -> usable msg -> particle_cloud s = [] ->
  let o := scan_odom_xy_theta msg in
  let cloud' := map (fun p => set_w p (1 / INR n_particles))
                    (initial_cloud o (drawn s) n_particles) in
  scan_received msg s
  = (fix_map_to_odom_transform (scan_to_odom_frame msg) ;; publish_particles)
      (set_current_odom_xy_theta (Some o)
         (set_robot_pose (Some (as_pose (mean_pose cloud')))
            (set_particle_cloud cloud'
               (set_drawn (drawn s + 3 * n_particles)
                  (set_odom_pose (Some o) s))))).
Proof.
  intros Hinit Hmsg Hcloud o cloud'. rewrite scan_received_usable by assumption.
  rewrite Hcloud. unfold mbind at 1. unfold mbind at 1.
  rewrite initialize_particle_cloud_none. cbn [odom_pose set_odom_pose].
  rewrite initialize_particle_cloud_some. cbn [drawn set_odom_pose].
  unfold mbind at 1. unfold modify at 1. fold o. fold cloud'.
  unfold mbind. reflexivity.
Qed.

Lemma initial_cloud_nonempty (xy_theta : R * R * R) (k : nat) (v : R) :
  map (fun p => set_w p v) (initial_cloud xy_theta k n_particles) <> [].
Proof.
  intros Hnil. apply (f_equal (@length Particle)) in Hnil.
  rewrite length_map, initial_cloud_length in Hnil. discriminate Hnil.
Qed.

Lemma awaiting_callback (pub : list (list Pose)) (e : event) :
  invariant (awaiting_odom pub) (callback e).
Proof.
  intros s (Hcloud & Hcur & Hpub). destruct e as [|msg|msg|]; cbn [callback].
  - repeat split; assumption.
  - destruct (initialized s) eqn:Hinit;
      [|rewrite scan_received_ignored by (left; exact Hinit);
        repeat split; assumption].
    destruct (can_transform_laser msg) eqn:Hl;
      [|rewrite scan_received_ignored
          by (right; intros [Hl' _]; congruence);
        repeat split; assumption].
    destruct (can_transform_odom msg) eqn:Ho;
      [|rewrite scan_received_ignored
          by (right; intros [_ Ho']; congruence);
        repeat split; assumption].
    rewrite scan_received_awaiting; try assumption; [|split; assumption].
    repeat split; assumption.
  - unfold update_initial_pose. unfold mbind.
    rewrite initialize_particle_cloud_some. cbv beta iota.
    match goal with
    | |- context [fix_map_to_odom_transform ?f ?s2] =>
        destruct (fix_map_to_odom_transform_cases f s2) as [(e & ->)|(tr & ->)]
    end; cbn [snd]; (split; [apply initial_cloud_nonempty|split; assumption]).
  - unfold broadcast_last_transform, mbind, gets, modify, ret.
    destruct (translation s), (rotation s); cbn [snd]; repeat split; assumption.
Qed.

End ScanFacts.

(** X5: a scan that arrives before [__init__] has finished, or whose
    transforms the listener cannot give, changes nothing: no attribute is
    written and nothing is published, however many such scans arrive. *)
Theorem ignored_scans_change_nothing `{World} (msgs : list LaserScan) (s : Node) :
  initialized s = false \/ Forall (fun msg => ~ usable msg) msgs ->
  run (map Scan msgs) s = s
  /\ Forall (fun msg => scan_received msg s = (Ok tt, s)) msgs.
Proof.
  intros Hc.
  assert (Hall : Forall (fun msg => scan_received msg s = (Ok tt, s)) msgs).
  { apply Forall_forall. intros msg Hin. apply scan_received_ignored.
    destruct Hc as [Hc|Hc]; [left; exact Hc|right].
    rewrite Forall_forall in Hc. apply Hc. exact Hin. }
  split; [|exact Hall]. clear Hc.
  induction Hall as [|msg msgs Hmsg _ IH]; [reflexivity|].
  cbn [map]. unfold run in *. cbn [fold_left]. unfold handle at 2.
  cbn [callback]. rewrite Hmsg. exact IH.
Qed.

Lemma ignored_scans_change_nothing_witness :
  run (H := world_open_field) (map Scan [unit_scan; step_scan]) node0 = node0.
Proof.
  apply (ignored_scans_change_nothing (H := world_open_field)
           [unit_scan; step_scan] node0).
  left. reflexivity.
Defined.

(** X6: the first usable scan of an initialised node with an empty cloud.
    Whether the callback returns or raises, it leaves 500 particles spread
    around the odometry pose of the scan with the next 1500 draws, that
    pose recorded as [odom_pose] and as [current_odom_xy_theta], and the
    pose estimate of the new cloud.  It publishes the cloud, once, exactly
    when [fix_map_to_odom_transform] returns; when the listener raises
    there, the exception leaves the callback, no offset is assigned and
    nothing is published. *)
Theorem first_scan_initializes `{World} (msg : LaserScan) (s : Node) :
  initialized s = true -> usable msg -> particle_cloud s = [] ->
  exists s',
    snd (scan_received msg s) = s'
    /\ length (particle_cloud s') = 500%nat
    /\ map Refs.pose_of (particle_cloud s')
       = map Refs.pose_of (initial_cloud (scan_odom_xy_theta msg) (drawn s) 500)
    /\ drawn s' = (drawn s + 1500)%nat
    /\ odom_pose s' = Some (scan_odom_xy_theta msg)
    /\ current_odom_xy_theta s' = Some (scan_odom_xy_theta msg)
    /\ robot_pose s' = Some (as_pose (mean_pose (particle_cloud s')))
    /\ ((fst (scan_received msg s) = Ok tt
         /\ particle_pub s' = particle_pub s ++ [map as_pose (particle_cloud s')]
         /\ exists tr, translation s' = Some (fst tr) /\ rotation s' = Some (snd tr)
                       /\ computed s' = computed s ++ [tr])
        \/ (exists e, fst (scan_received msg s) = Raise e
                      /\ particle_pub s' = particle_pub s
                      /\ translation s' = translation s
                      /\ rotation s' = rotation s
                      /\ computed s' = computed s)).
Proof.
  intros Hinit Hmsg Hcloud. eexists. split; [reflexivity|].
  rewrite (scan_received_first msg s Hinit Hmsg Hcloud). cbn zeta.
  unfold mbind.
  match goal with
  | |- context [fix_map_to_odom_transform ?f ?s3] =>
      destruct (fix_map_to_odom_transform_cases f s3) as [(e & ->)|(tr & ->)]
  end;
    unfold publish_particles, mbind, gets, modify;
    cbn [fst snd particle_cloud drawn odom_pose current_odom_xy_theta robot_pose
         particle_pub translation rotation computed
         publish set_translation_rotation set_current_odom_xy_theta set_robot_pose
         set_particle_cloud set_drawn set_odom_pose];
    change n_particles with 500%nat;
    (split; [rewrite length_map; apply initial_cloud_length|]);
    (split; [apply map_pose_of_set_w|]);
    (split; [reflexivity|]); (split; [reflexivity|]); (split; [reflexivity|]);
    (split; [reflexivity|]).
  - right. exists e. repeat split.
  - left. split; [reflexivity|]. split; [reflexivity|].
    exists tr. repeat split.
Qed.

Lemma first_scan_initializes_witness :
  length (particle_cloud
            (snd (scan_received (H := world_open_field) unit_scan
                    (set_initialized true node0)))) = 500%nat.
Proof.
  destruct (first_scan_initializes (H := world_open_field) unit_scan
              (set_initialized true node0))
    as (s' & Hs' & Hlen & _).
  - reflexivity.
  - split; reflexivity.
  - reflexivity.
  - rewrite Hs'. exact Hlen.
Defined.

(** X7: an initial pose that is handled before the first usable scan
    leaves a cloud but no recorded odometry pose, and the filter never
    recovers: whatever callbacks follow, every usable scan of the
    initialised node raises [IndexError] where it reads
    [self.current_odom_xy_theta[0]], having only stored the odometry pose;
    no cloud is ever published again, and no update cycle runs. *)
Theorem initial_pose_before_first_scan_blocks `{World} (s : Node) (msg0 : InitialPose)
        (es : list event) :
  current_odom_xy_theta s = None ->
  let s1 := run es (handle s (NewInitialPose msg0)) in
  particle_pub s1 = particle_pub s
  /\ current_odom_xy_theta s1 = None
  /\ length (particle_cloud s1) = 500%nat
  /\ forall msg,
      initialized s1 = true -> usable msg ->
      scan_received msg s1
      = (Raise IndexError, set_odom_pose (Some (scan_odom_xy_theta msg)) s1).
Proof.
  intros Hcur s1.
  assert (H0 : awaiting_odom (particle_pub s) (handle s (NewInitialPose msg0))
               /\ cloud_sized (handle s (NewInitialPose msg0))).
  { unfold handle. cbn [callback]. unfold update_initial_pose, mbind.
    rewrite initialize_particle_cloud_some. cbv beta iota.
    match goal with
    | |- context [fix_map_to_odom_transform ?f ?s2] =>
        destruct (fix_map_to_odom_transform_cases f s2) as [(e & ->)|(tr & ->)]
    end; cbn [snd];
      (split;
       [split; [apply initial_cloud_nonempty|split; [exact Hcur|reflexivity]]
       |right; cbn [particle_cloud set_translation_rotation set_robot_pose
                    set_particle_cloud];
        rewrite length_map; apply initial_cloud_length]). }
  destruct H0 as [Hawait Hsized].
  pose proof (invariant_run _ (awaiting_callback (particle_pub s)) es _ Hawait)
    as (Hcloud & Hnone & Hpub).
  pose proof (invariant_run _ sized_callback es _ Hsized) as Hlen.
  fold s1 in Hcloud, Hnone, Hpub, Hlen.
  split; [exact Hpub|]. split; [exact Hnone|]. split.
  - destruct Hlen as [Hlen|Hlen]; [|exact Hlen].
    destruct (particle_cloud s1); [contradiction|discriminate].
  - intros msg Hinit Hmsg. apply scan_received_awaiting; assumption.
Qed.

Lemma initial_pose_before_first_scan_blocks_witness :
  particle_pub
    (run (H := world_open_field) [Constructed; Scan step_scan; Tick; Scan unit_scan]
       (handle node0 (NewInitialPose origin_initial_pose)))
  = [].
Proof.
  apply (initial_pose_before_first_scan_blocks (H := world_open_field) node0
           origin_initial_pose [Constructed; Scan step_scan; Tick; Scan unit_scan]).
  reflexivity.
Defined.

(** ** Which readings the sensor update uses *)

Section ReadingFacts.

Context `{World}.

Lemma inner_loop_ext (ranges1 ranges2 : list R) (thetas : list nat) :
  Forall (fun deg => nth_error ranges1 deg = nth_error ranges2 deg) thetas ->
  forall st, inner_loop ranges1 thetas st = inner_loop ranges2 thetas st.
Proof.
  induction 1 as [|deg thetas Hdeg _ IH]; intros st; cbn [inner_loop].
  - reflexivity.
  - unfold bearing_error, index. rewrite Hdeg.
    destruct (nth_error ranges2 deg) as [r|]; cbn [bind]; [|reflexivity].
    destruct (get_closest_obstacle_distance _ _); [apply IH|reflexivity].
Qed.

Lemma reweigh_ext (ranges1 ranges2 : list R) (p : Particle) :
  Forall (fun deg => nth_error ranges1 deg = nth_error ranges2 deg) range_0_360_10 ->
  reweigh ranges1 p = reweigh ranges2 p.
Proof.
  intros Hall. unfold reweigh, scan_particle.
  rewrite (inner_loop_ext ranges1 ranges2 _ Hall). reflexivity.
Qed.

Lemma mapM_In_result {A B : Type} (f : A -> result B) (xs : list A) (ys : list B)
      (b : B) :
  mapM f xs = Ok ys -> In b ys -> exists a, In a xs /\ f a = Ok b.
Proof.
  revert ys. induction xs as [|a xs IH]; intros ys Hm Hb; cbn [mapM] in Hm.
  - injection Hm as <-. contradiction.
  - destruct (f a) as [b0|e] eqn:Ha; cbn [bind] in Hm; [|discriminate].
    destruct (mapM f xs) as [bs|e]; cbn [bind] in Hm; [|discriminate].
    injection Hm as <-. destruct Hb as [<-|Hb].
    + exists a. split; [left; reflexivity|exact Ha].
    + destruct (IH bs eq_refl Hb) as (a' & Hin & Ha').
      exists a'. split; [right; exact Hin|exact Ha'].
Qed.

End ReadingFacts.

(** X8: the sensor update reads the scan at the indices [0, 10, ..., 350]
    and nowhere else: two scans that agree there (in the reading or in its
    absence) give the same result, weights and exception alike, whatever
    their other readings and their lengths. *)
Theorem laser_update_reads_every_tenth `{World} (msg1 msg2 : LaserScan) (s : Node) :
  (forall k, (k < 36)%nat ->
             nth_error (ranges msg1) (10 * k) = nth_error (ranges msg2) (10 * k)) ->
  update_particles_with_laser msg1 s = update_particles_with_laser msg2 s.
Proof.
  intros Hsame. unfold update_particles_with_laser.
  apply for_each_particle_ext. intros p s0. unfold lift. f_equal.
  apply reweigh_ext. unfold range_0_360_10.
  apply Forall_forall. intros deg Hdeg. apply in_map_iff in Hdeg.
  destruct Hdeg as (k & <- & Hk). apply in_seq in Hk.
  replace (k * 10)%nat with (10 * k)%nat by lia. apply Hsame. lia.
Qed.

Lemma laser_update_reads_every_tenth_witness :
  update_particles_with_laser (H := world_open_field) unit_scan
    (node_with_cloud [mkParticle 0 0 0 1])
  = update_particles_with_laser (H := world_open_field) unit_scan_but_one
      (node_with_cloud [mkParticle 0 0 0 1]).
Proof.
  apply (laser_update_reads_every_tenth (H := world_open_field)
           unit_scan unit_scan_but_one).
  intros k Hk.
  do 36 (destruct k as [|k]; [reflexivity|]). lia.
Defined.

(** ** Resampling on binary64, when it returns *)

Lemma binary64_digitize_length (us bins : list PrimFloat.float) (ds : list nat) :
  Binary64.digitize us bins = Ok ds -> length ds = length us.
Proof.
  unfold Binary64.digitize.
  destruct (Binary64.nondecreasing bins); [|destruct (Binary64.nonincreasing bins)];
    intros [= <-]; try apply length_map.
Qed.

Lemma binary64_normalize_keeps_pose (cloud cloud1 : list Binary64.Particle)
      (q : Binary64.Particle) :
  Binary64.normalize_particles cloud = Ok cloud1 -> In q cloud1 ->
  exists p, In p cloud
            /\ Binary64.x q = Binary64.x p /\ Binary64.y q = Binary64.y p
            /\ Binary64.theta q = Binary64.theta p.
Proof.
  unfold Binary64.normalize_particles. intros Hnorm Hq.
  destruct (mapM_In_result _ _ _ q Hnorm Hq) as (p & Hp & Hpq).
  exists p. split; [exact Hp|].
  destruct (Binary64.div _ _) as [v|e]; cbn [bind] in Hpq; [|discriminate].
  injection Hpq as <-. repeat split.
Qed.

(** X9: on binary64, whenever [resample_particles] returns, the cloud it
    returns has as many particles as the one it was given, and each of
    them has the [(x, y, theta)] of a particle of that cloud: nothing is
    interpolated, whatever the rounding of the weights. *)
Theorem binary64_resample_returns_copies (random_stream : nat -> PrimFloat.float)
        (cloud cloud' : list Binary64.Particle) (k : nat) :
  Binary64.resample_particles random_stream cloud k = Ok cloud' ->
  length cloud' = length cloud
  /\ Forall (fun q => exists p, In p cloud
                                /\ Binary64.x q = Binary64.x p
                                /\ Binary64.y q = Binary64.y p
                                /\ Binary64.theta q = Binary64.theta p) cloud'.
Proof.
  unfold Binary64.resample_particles, Binary64.draw_random_sample.
  destruct (Binary64.normalize_particles cloud) as [cloud1|e] eqn:Hnorm;
    cbn [bind]; [|discriminate].
  destruct (Binary64.digitize _ _) as [ds|e] eqn:Hds; cbn [bind]; [|discriminate].
  destruct (mapM (index (seq 0 (length cloud1))) ds) as [inds|e] eqn:Hinds;
    cbn [bind]; [|discriminate].
  intros Hsamples. split.
  - rewrite (mapM_length _ _ _ Hsamples), (mapM_length _ _ _ Hinds).
    rewrite (binary64_digitize_length _ _ _ Hds), length_map, length_seq.
    unfold Binary64.normalize_particles in Hnorm.
    apply (mapM_length _ _ _ Hnorm).
  - apply Forall_forall. intros q Hq.
    destruct (mapM_In_result _ _ _ q Hsamples Hq) as (i & _ & Hi).
    apply index_ok in Hi. apply nth_error_In in Hi.
    eapply binary64_normalize_keeps_pose; eassumption.
Qed.

Lemma binary64_resample_returns_copies_witness :
  length (repeat (Binary64.mkParticle 4 0 0 0x1.c71c71c71c71ap-4) 9)
  = length nine_equal_weights.
Proof.
  apply (binary64_resample_returns_copies (fun _ => 0.5%float)
           nine_equal_weights
           (repeat (Binary64.mkParticle 4 0 0 0x1.c71c71c71c71ap-4) 9) 0).
  vm_compute. reflexivity.
Defined.
